(** * notifications/index.js: the notification service, embedded and verified

    The service is one Node.js file: an Express application in front of a
    PostgreSQL table [notifications] and a Redis list [notification_queue],
    plus a worker loop [processQueue] that drains the list.

    The embedding is shallow.  The PostgreSQL table is a finite map from the
    primary key to the other columns, the Redis list is a list of strings,
    the console is a list of lines, and every handler is a computation in a
    small state-and-exception monad over that world.  A call to the database
    or to Redis may throw (its promise is rejected); which calls do is given
    to each handler run by an environment.

    A [string] holds the bytes of a text in UTF-8, as the database and
    Redis have the strings of JavaScript.  A number is the integer it is,
    rounded as a double is ([JS.to_double]).  The database reads integers
    as PostgreSQL does from version 16 on. *)

From Stdlib Require Import ZArith String Ascii List Lia.
From stdpp Require Import gmap strings list fin_maps sorting pretty.

Local Open Scope string_scope.
Local Open Scope Z_scope.

(** ** JavaScript values and the primitives the handlers use *)

Module JS.

(** A field of [req.body] after [express.json()].  [JNum n] is the
    integral number nearest to [n] (see [to_double] below; [n] itself up
    to 2^53).  [JOther] is any remaining value, all of them truthy: a
    number with a fraction, an array or an object; it carries the text
    node-postgres sends for it as a query parameter, the only thing the
    handlers ever do with such a value. *)
Inductive value : Type :=
| JUndefined
| JNull
| JBool (b : bool)
| JNum (n : Z)
| JStr (s : string)
| JOther (text : string).

(** [ToBoolean]: what [!v] and [v || w] test. *)
Definition truthy (v : value) : bool :=
  match v with
  | JUndefined | JNull => false
  | JBool b => b
  | JNum n => negb (n =? 0)
  | JStr s => negb (String.eqb s "")
  | JOther _ => true
  end.

(** [v || null] *)
Definition or_null (v : value) : value :=
  if truthy v then v else JNull.

(** [['email', 'slack', 'telegram'].includes(v)]: only a string can be
    equal (SameValueZero) to a string. *)
Definition includes (l : list string) (v : value) : bool :=
  match v with
  | JStr s => existsb (String.eqb s) l
  | _ => false
  end.

(** The value of [c] as a digit in [radix] (at most 16), if it is one. *)
Definition digit (radix : Z) (c : ascii) : option Z :=
  let n := Z.of_N (N_of_ascii c) in
  let d :=
    if (48 <=? n) && (n <=? 57) then Some (n - 48)
    else if (97 <=? n) && (n <=? 102) then Some (n - 87)
    else if (65 <=? n) && (n <=? 70) then Some (n - 55)
    else None in
  match d with
  | Some k => if k <? radix then Some k else None
  | None => None
  end.

(** White space and line terminators, which [parseInt] skips.  A [string]
    holds the UTF-8 bytes of the JavaScript string, so the characters
    beyond ASCII are two or three bytes here: TAB, LF, VT, FF, CR and the
    space; U+00A0; and U+1680, U+2000 to U+200A, U+2028, U+2029, U+202F,
    U+205F, U+3000 and U+FEFF. *)
Definition is_space (c : ascii) : bool :=
  let n := N_of_ascii c in
  ((9 <=? n) && (n <=? 13) || (n =? 32))%N.

Definition is_space2 (c1 c2 : ascii) : bool :=
  ((N_of_ascii c1 =? 194) && (N_of_ascii c2 =? 160))%N.

Definition is_space3 (c1 c2 c3 : ascii) : bool :=
  let a := N_of_ascii c1 in
  let b := N_of_ascii c2 in
  let c := N_of_ascii c3 in
  ((a =? 225) && (b =? 154) && (c =? 128)
   || (a =? 226) && (b =? 128)
      && ((128 <=? c) && (c <=? 138) || (c =? 168) || (c =? 169) || (c =? 175))
   || (a =? 226) && (b =? 129) && (c =? 159)
   || (a =? 227) && (b =? 128) && (c =? 128)
   || (a =? 239) && (b =? 187) && (c =? 191))%N.

Fixpoint skip_spaces (l : list ascii) : list ascii :=
  match l with
  | c1 :: l1 =>
      if is_space c1 then skip_spaces l1
      else
        match l1 with
        | c2 :: l2 =>
            if is_space2 c1 c2 then skip_spaces l2
            else
              match l2 with
              | c3 :: l3 => if is_space3 c1 c2 c3 then skip_spaces l3 else l
              | [] => l
              end
        | [] => l
        end
  | [] => []
  end.

(** The longest prefix of digits, read in [radix]; [acc] is [None] until a
    digit has been read. *)
Fixpoint digits (radix : Z) (acc : option Z) (l : list ascii) : option Z :=
  match l with
  | c :: l' =>
      match digit radix c with
      | Some d => digits radix (Some (default 0 acc * radix + d)) l'
      | None => acc
      end
  | [] => acc
  end.

(** A number of JavaScript is a double.  The handlers only have integral
    ones, and Infinity: they are kept as the integer they are, with
    [2 ^ 1024] for Infinity.  [to_double n] is the double nearest to the
    integer [n], ties going to the even mantissa: what the exact value of
    a numeral becomes. *)
Definition to_double (n : Z) : Z :=
  let a := Z.abs n in
  if a <? 2 ^ 53 then n
  else
    let e := Z.log2 a - 52 in
    let q := a / 2 ^ e in
    let r := a mod 2 ^ e in
    let half := 2 ^ (e - 1) in
    let q := if (half <? r) || ((r =? half) && Z.odd q) then q + 1 else q in
    Z.sgn n * Z.min (q * 2 ^ e) (2 ^ 1024).

(** [parseInt(s)] without a radix; [None] is NaN.  The numeral is read
    exactly and rounded to a double; [-0] is [0] here, which [||] and
    [toString] treat alike. *)
Definition parseInt (s : string) : option Z :=
  let l := skip_spaces (list_ascii_of_string s) in
  let '(sign, l) :=
    match l with
    | "-"%char :: l' => (-1, l')
    | "+"%char :: l' => (1, l')
    | _ => (1, l)
    end in
  let '(radix, l) :=
    match l with
    | "0"%char :: "x"%char :: l' => (16, l')
    | "0"%char :: "X"%char :: l' => (16, l')
    | _ => (10, l)
    end in
  (fun n => to_double (sign * n)) <$> digits radix None l.

(** [parseInt(q)] where [q] is a query parameter that may be absent:
    [parseInt(undefined)] is NaN. *)
Definition parseInt_opt (q : option string) : option Z :=
  q ≫= parseInt.

(** [n || d] for a number [n] that may be NaN. *)
Definition num_or (n : option Z) (d : Z) : Z :=
  match n with
  | Some k => if k =? 0 then d else k
  | None => d
  end.

(** The integers among which every one is a double. *)
Definition safe_integer (n : Z) : Prop := - 2 ^ 53 ≤ n ≤ 2 ^ 53.

(** [toString] writes the fewest digits that read back as the same double
    and, when several numerals of that length do, the nearest one.
    [shortest_at v p] is that numeral among the multiples of [p], if one
    of the two next to [v] reads back as [v]; [shortest v] tries the
    powers of ten from the largest down. *)
Definition shortest_at (v p : Z) : option Z :=
  let lo := v / p * p in
  let hi := lo + p in
  match to_double lo =? v, to_double hi =? v with
  | true, true =>
      Some (if v - lo <? hi - v then lo
            else if hi - v <? v - lo then hi
            else if Z.even (lo / p) then lo else hi)
  | true, false => Some lo
  | false, true => Some hi
  | false, false => None
  end.

Definition shortest (v : Z) : Z :=
  let n := String.length (pretty v) in
  default v (head (omap (fun k => shortest_at v (10 ^ Z.of_nat (n - k))) (seq 1 n))).

(** [l] without the zeros at its end. *)
Fixpoint strip_zeros (l : list ascii) : list ascii :=
  match l with
  | c :: l' =>
      match strip_zeros l' with
      | [] => if Ascii.eqb c "0" then [] else [c]
      | l'' => c :: l''
      end
  | [] => []
  end.

(** The numeral [c] in exponential form, as in [1.2345e+29] or [1e+21]. *)
Definition exponential (c : Z) : string :=
  match list_ascii_of_string (pretty c) with
  | d :: rest =>
      let fraction :=
        match strip_zeros rest with
        | [] => ""
        | l => String "." (string_of_list_ascii l)
        end in
      String d (fraction +:+ "e+" +:+ pretty (Z.of_nat (length rest)))
  | [] => ""
  end.

(** [n.toString()] for the double nearest to [n]: all its digits up to
    2^53; beyond, the shortest numeral, in full below 10^21 and in
    exponential form from there on; and [Infinity]. *)
Definition toString (n : Z) : string :=
  let v := to_double n in
  let a := Z.abs v in
  let sign := if v <? 0 then "-" else "" in
  if a <=? 2 ^ 53 then pretty v
  else if 2 ^ 1024 <=? a then sign +:+ "Infinity"
  else
    let c := shortest a in
    if c <? 10 ^ 21 then pretty (if v <? 0 then - c else c)
    else sign +:+ exponential c.

End JS.

(** ** Exceptions *)

(** What a call that may throw gives: a value, or the [message] of the
    error thrown.  The messages here stand for those of the database and of
    Redis, one for each kind of error. *)
Inductive outcome (A : Type) : Type :=
| Return (a : A)
| Throw (message : string).
Arguments Return {A} a.
Arguments Throw {A} message.

#[global] Instance outcome_ret : MRet outcome := fun _ a => Return a.
#[global] Instance outcome_bind : MBind outcome := fun _ _ f m =>
  match m with
  | Return a => f a
  | Throw e => Throw e
  end.

#[global] Instance outcome_fmap : FMap outcome := fun _ _ f m =>
  match m with
  | Return a => Return (f a)
  | Throw e => Throw e
  end.

(** [o] if it is there, the error [e] otherwise. *)
Definition or_throw {A} (e : string) (o : option A) : outcome A :=
  match o with
  | Some a => Return a
  | None => Throw e
  end.

(** ** The PostgreSQL side: the table of [initDb] and the four statements *)

Module Pg.

(** A row of [notifications] without its primary key [id], which is the
    key of the map below.  Columns declared NOT NULL hold a value, the
    others an option; timestamps are instants on an integer clock.
<<
    id SERIAL PRIMARY KEY,        user_id INTEGER NOT NULL,
    type VARCHAR(50) NOT NULL,    channel VARCHAR(50) NOT NULL,
    subject VARCHAR(255),         message TEXT NOT NULL,
    status VARCHAR(20) DEFAULT 'pending',
    created_at TIMESTAMP DEFAULT CURRENT_TIMESTAMP,
    sent_at TIMESTAMP
>> *)
Record notification : Type := Notification {
  user_id : Z;
  type : string;
  channel : string;
  subject : option string;
  message : string;
  status : option string;
  created_at : option Z;
  sent_at : option Z
}.

(** The table, and the last value handed out by the sequence behind the
    SERIAL column (0 before the first [nextval]). *)
Record database : Type := Database {
  notifications : gmap Z notification;
  notifications_id_seq : Z
}.

(** After [initDb] on a fresh database. *)
Definition empty : database := Database ∅ 0.

Definition int4_max : Z := 2147483647.
Definition int8_max : Z := 9223372036854775807.

(** [isspace] of C, which the input functions skip: the space, TAB, LF,
    VT, FF and CR. *)
Definition isspace (c : ascii) : bool :=
  let n := N_of_ascii c in
  ((9 <=? n) && (n <=? 13) || (n =? 32))%N.

Fixpoint skip_spaces (l : list ascii) : list ascii :=
  match l with
  | c :: l' => if isspace c then skip_spaces l' else l
  | [] => []
  end.

(** The digits at the front of [l], read in [radix], and what follows
    them.  An underscore may stand between two digits, and after a prefix
    before the first one: [underscore] tells whether one may come now.  An
    underscore anywhere else is an error, [None]. *)
Fixpoint read_digits (radix : Z) (underscore : bool) (acc : option Z)
    (l : list ascii) : option (option Z * list ascii) :=
  match l with
  | c :: l' =>
      match JS.digit radix c with
      | Some d => read_digits radix true (Some (default 0 acc * radix + d)) l'
      | None =>
          if Ascii.eqb c "_" then
            match l' with
            | c' :: _ =>
                if underscore && bool_decide (is_Some (JS.digit radix c'))
                then read_digits radix true acc l'
                else None
            | [] => None
            end
          else Some (acc, l)
      end
  | [] => Some (acc, [])
  end.

(** The prefix of a numeral that is not decimal: its radix, whether an
    underscore may come first, and what follows the prefix. *)
Definition radix_prefix (l : list ascii) : Z * bool * list ascii :=
  match l with
  | "0"%char :: "x"%char :: l' | "0"%char :: "X"%char :: l' => (16, true, l')
  | "0"%char :: "o"%char :: l' | "0"%char :: "O"%char :: l' => (8, true, l')
  | "0"%char :: "b"%char :: l' | "0"%char :: "B"%char :: l' => (2, true, l')
  | _ => (10, false, l)
  end.

(** The input function of the integer types, for a type with largest
    value [max], as PostgreSQL has it from version 16 on: white space, a
    sign, then decimal digits, or hexadecimal, octal or binary ones after
    0x, 0o or 0b, with underscores between digits; white space, and
    nothing else.  At least one digit must be there, and a value out of
    range is an error.  (Before version 16 only decimal digits without
    underscores are read.) *)
Definition int_in (max : Z) (s : string) : option Z :=
  let l := skip_spaces (list_ascii_of_string s) in
  let '(neg, l) :=
    match l with
    | "-"%char :: l' => (true, l')
    | "+"%char :: l' => (false, l')
    | _ => (false, l)
    end in
  let '(radix, underscore, l) := radix_prefix l in
  match read_digits radix underscore None l with
  | Some (Some n, rest) =>
      match skip_spaces rest with
      | [] =>
          let v := if neg : bool then - n else n in
          if (- max - 1 <=? v) && (v <=? max) then Some v else None
      | _ => None
      end
  | _ => None
  end.

(** A text value cannot hold the character of code 0. *)
Definition text_in (s : string) : option string :=
  if forallb (fun c => negb (Ascii.eqb c Ascii.zero)) (list_ascii_of_string s)
  then Some s else None.

(** A byte that goes on with a character of UTF-8, rather than starting
    one. *)
Definition continuation (c : ascii) : bool :=
  let n := N_of_ascii c in
  ((128 <=? n) && (n <? 192))%N.

(** The first [n] characters of [l], and what follows them. *)
Fixpoint clip (n : nat) (l : list ascii) : list ascii * list ascii :=
  match l with
  | c :: l' =>
      if continuation c then
        let '(kept, cut) := clip n l' in (c :: kept, cut)
      else
        match n with
        | O => ([], l)
        | S n' => let '(kept, cut) := clip n' l' in (c :: kept, cut)
        end
  | [] => ([], [])
  end.

(** Bringing [s] to a VARCHAR(n) column: more than [n] characters is an
    error unless only spaces are cut off. *)
Definition varchar (n : nat) (s : string) : option string :=
  let '(kept, cut) := clip n (list_ascii_of_string s) in
  if forallb (Ascii.eqb " "%char) cut
  then Some (string_of_list_ascii kept) else None.

(** A query parameter as node-postgres sends it: SQL NULL, or a text. *)
Definition param : Type := option string.

(** What node-postgres makes of a JavaScript value ([prepareValue]). *)
Definition prepareValue (v : JS.value) : param :=
  match v with
  | JS.JUndefined | JS.JNull => None
  | JS.JBool b => Some (if b then "true" else "false")
  | JS.JNum n => Some (JS.toString n)
  | JS.JStr s => Some s
  | JS.JOther text => Some text
  end.

(** A number that may be NaN, as a parameter. *)
Definition prepareNumber (n : option Z) : param :=
  Some (from_option JS.toString "NaN" n).

(** Binding a parameter to an integer or a text placeholder: NULL stays
    NULL, a text is read by the input function of the type. *)
Definition bind_int (max : Z) (p : param) : outcome (option Z) :=
  match p with
  | None => Return None
  | Some s =>
      Some <$> or_throw "invalid input syntax or value out of range for type integer"
                (int_in max s)
  end.

Definition bind_text (p : param) : outcome (option string) :=
  match p with
  | None => Return None
  | Some s => Some <$> or_throw "invalid byte sequence for encoding" (text_in s)
  end.

(** A value for a NOT NULL column. *)
Definition not_null {A} (column : string) (v : option A) : outcome A :=
  or_throw ("null value in column " +:+ column +:+ " violates not-null constraint") v.

(** A text for a VARCHAR(n) column; NULL stays NULL. *)
Definition varchar_in (n : nat) (s : string) : outcome string :=
  or_throw "value too long for type character varying" (varchar n s).

Definition varchar_opt (n : nat) (v : option string) : outcome (option string) :=
  match v with
  | None => Return None
  | Some s => Some <$> varchar_in n s
  end.

(** [SELECT] gives rows with their [id]. *)
Definition row : Type := Z * notification.

(** The five parameters of the INSERT, bound: [$1] is read as an integer,
    the others as texts, and the texts for [type], [channel] and
    [subject] are brought to the length of their columns. *)
Definition bound : Type :=
  option Z * option string * option string * option string * option string.

Definition bind_params (p1 p2 p3 p4 p5 : param) : outcome bound :=
  u ← bind_int int4_max p1; t ← bind_text p2; c ← bind_text p3;
  s ← bind_text p4; m ← bind_text p5;
  t ← varchar_opt 50 t; c ← varchar_opt 50 c; s ← varchar_opt 255 s;
  mret (u, t, c, s, m).

(** The row the INSERT makes of the bound values: each goes into its
    column, which refuses a NULL if it is declared NOT NULL; [status] is
    'pending', [created_at] is at its default [now] and [sent_at] at its
    default NULL. *)
Definition new_row (now : Z) (v : bound) : outcome notification :=
  let '(u, t, c, s, m) := v in
  u ← not_null "user_id" u;
  t ← not_null "type" t;
  c ← not_null "channel" c;
  m ← not_null "message" m;
  mret (Notification u t c s m (Some "pending") (Some now) None).

(** The INSERT of the admission handler:
<<
    INSERT INTO notifications (user_id, type, channel, subject, message, status)
    VALUES ($1, $2, $3, $4, $5, 'pending')
    RETURNING id, user_id, type, channel, subject, message, status, created_at
>>
    The parameters are bound before the statement runs: an error there (no
    integer, a text too long) leaves the database as it was.  Then the
    sequence gives the next [id], and an error after that (a NULL in a NOT
    NULL column, a taken key) inserts nothing but keeps the sequence
    advanced: [nextval] is never rolled back. *)
Definition insert (p1 p2 p3 p4 p5 : param) (now : Z) (d : database)
  : outcome row * database :=
  match bind_params p1 p2 p3 p4 p5 with
  | Throw e => (Throw e, d)
  | Return v =>
      let id := notifications_id_seq d + 1 in
      if int4_max <? id
      then (Throw "nextval: reached maximum value of sequence", d)
      else
        let d' := Database (notifications d) id in
        match new_row now v with
        | Throw e => (Throw e, d')
        | Return n =>
            match notifications d !! id with
            | Some _ =>
                (Throw "duplicate key value violates unique constraint", d')
            | None => (Return (id, n), Database (<[id := n]> (notifications d)) id)
            end
        end
  end.

(** [SELECT ... FROM notifications WHERE id = $1]: the row of that key if
    there is one ([id] is the primary key); NULL is equal to nothing. *)
Definition select_by_id (p : param) (d : database) : outcome (list row) :=
  i ← bind_int int4_max p;
  mret (match i with
        | Some i => from_option (fun n => [(i, n)]) [] (notifications d !! i)
        | None => []
        end).

(** The columns the worker selects: [id, user_id, type, channel, subject,
    message].  The row it gets has no [status], [created_at] or [sent_at];
    they are blanked here. *)
Definition worker_columns (r : row) : row :=
  (r.1, Notification (user_id r.2) (type r.2) (channel r.2) (subject r.2)
          (message r.2) None None None).

(** What the UPDATE of the worker does to a row. *)
Definition set_sent (now : Z) (n : notification) : notification :=
  Notification (user_id n) (type n) (channel n) (subject n) (message n)
    (Some "sent") (created_at n) (Some now).

(** [UPDATE notifications SET status = 'sent', sent_at = CURRENT_TIMESTAMP
    WHERE id = $1] *)
Definition update_sent (p : param) (now : Z) (d : database) : outcome database :=
  i ← bind_int int4_max p;
  mret (match i with
        | Some i =>
            Database (alter (set_sent now) i (notifications d))
              (notifications_id_seq d)
        | None => d
        end).

(** [a <= b] on timestamps that may be NULL; NULL sorts as larger than
    every value. *)
Definition ts_le (a b : option Z) : bool :=
  match a, b with
  | _, None => true
  | None, Some _ => false
  | Some x, Some y => x <=? y
  end.

(** [ORDER BY created_at DESC].  Rows of equal [created_at] come in an
    order PostgreSQL does not specify; the sort below fixes one. *)
Definition newest_first (r1 r2 : row) : Prop :=
  ts_le (created_at r2.2) (created_at r1.2).

(** [LIMIT n] and [OFFSET n]: NULL is no bound, a negative number an
    error. *)
Definition row_count (clause : string) (n : option Z) : outcome (option nat) :=
  match n with
  | None => Return None
  | Some n =>
      if n <? 0 then Throw (clause +:+ " must not be negative")
      else Return (Some (Z.to_nat n))
  end.

(** The SELECT of the list handler:
<<
    SELECT ... FROM notifications [WHERE user_id = $1]
    ORDER BY created_at DESC LIMIT $k OFFSET $k+1
>>
    [filter] is [Some p] when the WHERE clause is there. *)
Definition select_page (filter : option param) (limit offset : param)
    (d : database) : outcome (list row) :=
  u ← from_option (fun p => Some <$> bind_int int4_max p) (Return None) filter;
  lim ← bind_int int8_max limit ≫= row_count "LIMIT";
  off ← bind_int int8_max offset ≫= row_count "OFFSET";
  let matching :=
    match u with
    | None => map_to_list (notifications d)
    | Some u =>
        List.filter (fun r : row => bool_decide (Some (user_id r.2) = u))
          (map_to_list (notifications d))
    end in
  let page := drop (default 0%nat off) (merge_sort newest_first matching) in
  mret (from_option (fun k => take k page) page lim).

End Pg.

(** ** The Redis side: the list [notification_queue] *)

Module Redis.

(** The list under the key, its left end first. *)
Definition queue : Type := list string.

(** [LPUSH key x]: [x] goes in at the left end. *)
Definition lPush (x : string) (q : queue) : queue := x :: q.

(** [BRPOP key timeout]: the element at the right end is taken out; on an
    empty list the call times out and answers null ([None]). *)
Definition brPop (q : queue) : option string * queue :=
  match reverse q with
  | x :: r => (Some x, reverse r)
  | [] => (None, q)
  end.

End Redis.

(** ** The world and the monad of the handlers *)

(** All the service touches.  [sender_calls] is not in the source: it is a
    record of every call of [sendNotification], newest first, with the row
    it was given, so that "the sender was called" can be stated. *)
Record world : Type := World {
  db : Pg.database;
  notification_queue : Redis.queue;
  console : list string;
  sender_calls : list Pg.row
}.

(** After [initRedis] and [initDb] on fresh servers. *)
Definition init : world := World Pg.empty [] [] [].

(** What one run of a handler (or one iteration of the worker) is given
    from outside: the clock, whether Redis answers, and whether the
    database answers the [k]-th [pool.query] of the run (from 0).  A call
    that is not answered throws: its promise is rejected. *)
Record env : Type := Env {
  now : Z;
  pg_up : nat → bool;
  redis_up : bool
}.

(** A computation that reads and writes the world and may throw.  A handler
    runs from start to end in one [world → world] step: the interleaving of
    two handlers at an [await] is not modelled, and neither is the end of
    the process (the source listens to no ['error'] event of the Redis
    client or of the pool, so a connection that is lost ends it). *)
Definition M (A : Type) : Type := world → outcome A * world.

#[global] Instance M_ret : MRet M := fun _ a w => (Return a, w).
#[global] Instance M_bind : MBind M := fun _ _ f m w =>
  match m w with
  | (Return a, w') => f a w'
  | (Throw e, w') => (Throw e, w')
  end.

#[global] Instance M_fmap : FMap M := fun _ _ f m w =>
  match m w with
  | (Return a, w') => (Return (f a), w')
  | (Throw e, w') => (Throw e, w')
  end.

(** [try { body } catch (error) { handler(error) }] *)
Definition try_catch {A} (body : M A) (handler : string → M A) : M A := fun w =>
  match body w with
  | (Return a, w') => (Return a, w')
  | (Throw e, w') => handler e w'
  end.

(** A pure result that may be an error, as a computation. *)
Definition lift {A} (o : outcome A) : M A := fun w => (o, w).

Definition connection_error : string := "connect ECONNREFUSED".

(** [console.log(line)] and [console.error(line)] *)
Definition console_log (line : string) : M unit := fun w =>
  (Return (), World (db w) (notification_queue w) (line :: console w) (sender_calls w)).
Definition console_error : string → M unit := console_log.

(** [pool.query], for each of the four statements; [k] is the number of the
    call in the run. *)
Definition pool_query {A} (e : env) (k : nat)
    (statement : Pg.database → outcome A * Pg.database) : M A := fun w =>
  if pg_up e k then
    let '(o, d) := statement (db w) in
    (o, World d (notification_queue w) (console w) (sender_calls w))
  else (Throw connection_error, w).

Definition query_select_by_id (e : env) (k : nat) (p : Pg.param) : M (list Pg.row) :=
  pool_query e k (fun d => (Pg.select_by_id p d, d)).

Definition query_update_sent (e : env) (k : nat) (p : Pg.param) : M unit :=
  pool_query e k (fun d =>
    match Pg.update_sent p (now e) d with
    | Return d' => (Return (), d')
    | Throw err => (Throw err, d)
    end).

Definition query_select_page (e : env) (k : nat) (filter : option Pg.param)
    (limit offset : Pg.param) : M (list Pg.row) :=
  pool_query e k (fun d => (Pg.select_page filter limit offset d, d)).

(** [redisClient.lPush('notification_queue', x)] *)
Definition redisClient_lPush (e : env) (x : string) : M unit := fun w =>
  if redis_up e then
    (Return (), World (db w) (Redis.lPush x (notification_queue w)) (console w)
                  (sender_calls w))
  else (Throw connection_error, w).

(** [redisClient.brPop('notification_queue', 5)]: the [element] of the
    answer, or [None] for null. *)
Definition redisClient_brPop (e : env) : M (option string) := fun w =>
  if redis_up e then
    let '(x, q) := Redis.brPop (notification_queue w) in
    (Return x, World (db w) q (console w) (sender_calls w))
  else (Throw connection_error, w).

(** ** The worker *)

(** Records the call, see [sender_calls]. *)
Definition called_with (notif : Pg.row) : M unit := fun w =>
  (Return (), World (db w) (notification_queue w) (console w) (notif :: sender_calls w)).

(** [sendNotification(notif)]: a line on the console for each of the three
    channels, nothing for any other.  It never throws. *)
Definition sendNotification (notif : Pg.row) : M unit :=
  _ ← called_with notif;
  let user := JS.toString (Pg.user_id notif.2) in
  if String.eqb (Pg.channel notif.2) "email" then
    console_log ("sending email to user " +:+ user +:+ ": "
                 +:+ default "null" (Pg.subject notif.2))
  else if String.eqb (Pg.channel notif.2) "slack" then
    console_log ("sending slack to user " +:+ user +:+ ": " +:+ Pg.message notif.2)
  else if String.eqb (Pg.channel notif.2) "telegram" then
    console_log ("sending telegram to user " +:+ user +:+ ": " +:+ Pg.message notif.2)
  else mret ().

(** One turn of the [while (true)] loop of [processQueue]: the body of the
    [try] and its [catch]. *)
Definition processQueue_iteration (e : env) : M unit :=
  try_catch
    (notificationId ← redisClient_brPop e;
     match notificationId with
     | Some element =>
         if String.eqb element "" then mret ()
         else
           let id := JS.parseInt element in
           rows ← query_select_by_id e 0 (Pg.prepareNumber id);
           match Pg.worker_columns <$> rows with
           | notif :: _ =>
               _ ← sendNotification notif;
               query_update_sent e 1 (Pg.prepareNumber id)
           | [] => mret ()
           end
     | None => mret ()
     end)
    (fun error => console_error ("error processing queue: " +:+ error)).

(** [processQueue()], cut after as many turns of the loop as there are
    environments: the loop itself never ends. *)
Fixpoint processQueue (es : list env) : M unit :=
  match es with
  | e :: es' => _ ← processQueue_iteration e; processQueue es'
  | [] => mret ()
  end.

(** ** The HTTP handlers *)

Module Req.
(** The five fields the admission handler takes out of [req.body]; a
    field that is not there is [JS.JUndefined]. *)
Record body : Type := Body {
  user_id : JS.value;
  type : JS.value;
  channel : JS.value;
  subject : JS.value;
  message : JS.value
}.
End Req.

Module Res.
(** A notification as the handlers answer it.  [created_at] stands for
    the ISO string of the instant.  [sent_at] is [None] when the object
    has no such key (the answer to POST), [Some None] for null. *)
Record notification : Type := Notification {
  id : Z;
  user_id : Z;
  type : string;
  channel : string;
  subject : option string;
  message : string;
  status : option string;
  created_at : Z;
  sent_at : option (option Z)
}.

Inductive json : Type :=
| Error (error : string)
| One (n : notification)
| Many (notifications : list notification) (count : nat)
| Health.

(** [res.status(code).json(body)] *)
Record response : Type := Response { code : Z; body : json }.
End Res.

(** The object built from a row; [created_at.toISOString()] throws on a
    NULL [created_at]. *)
Definition to_json (with_sent_at : bool) (r : Pg.row) : outcome Res.notification :=
  c ← or_throw "Cannot read properties of null (reading 'toISOString')"
        (Pg.created_at r.2);
  mret (Res.Notification r.1 (Pg.user_id r.2) (Pg.type r.2) (Pg.channel r.2)
          (Pg.subject r.2) (Pg.message r.2) (Pg.status r.2) c
          (if with_sent_at then Some (Pg.sent_at r.2) else None)).

Definition channels : list string := ["email"; "slack"; "telegram"].

(** [!user_id || !type || !channel || !message] *)
Definition missing_required (b : Req.body) : bool :=
  negb (JS.truthy (Req.user_id b)) || negb (JS.truthy (Req.type b))
  || negb (JS.truthy (Req.channel b)) || negb (JS.truthy (Req.message b)).

(** The INSERT of the admission handler with its five parameters
    [[user_id, type, channel, subject || null, message]], at instant [t]. *)
Definition insert_of (b : Req.body) (t : Z)
    : Pg.database → outcome Pg.row * Pg.database :=
  Pg.insert
    (Pg.prepareValue (Req.user_id b)) (Pg.prepareValue (Req.type b))
    (Pg.prepareValue (Req.channel b))
    (Pg.prepareValue (JS.or_null (Req.subject b)))
    (Pg.prepareValue (Req.message b)) t.

(** [app.post('/notifications', ...)] *)
Definition post_notifications (e : env) (b : Req.body) : M Res.response :=
  try_catch
    (if missing_required b then
       mret (Res.Response 400 (Res.Error "missing required fields"))
     else if negb (JS.includes channels (Req.channel b)) then
       mret (Res.Response 400 (Res.Error "invalid channel"))
     else
       notification ← pool_query e 0 (insert_of b (now e));
       _ ← redisClient_lPush e (JS.toString notification.1);
       n ← lift (to_json false notification);
       mret (Res.Response 200 (Res.One n)))
    (fun error =>
       _ ← console_error ("error creating notification: " +:+ error);
       mret (Res.Response 500 (Res.Error error))).

(** [app.get('/notifications/:id', ...)] *)
Definition get_notification (e : env) (id : string) : M Res.response :=
  try_catch
    (rows ← query_select_by_id e 0 (Some id);
     match rows with
     | [] => mret (Res.Response 404 (Res.Error "notification not found"))
     | notif :: _ =>
         n ← lift (to_json true notif);
         mret (Res.Response 200 (Res.One n))
     end)
    (fun error =>
       _ ← console_error ("error getting notification: " +:+ error);
       mret (Res.Response 500 (Res.Error error))).

(** [parseInt(req.query.limit) || 100] and [parseInt(req.query.offset) || 0] *)
Definition page_limit (q : option string) : Z := JS.num_or (JS.parseInt_opt q) 100.
Definition page_offset (q : option string) : Z := JS.num_or (JS.parseInt_opt q) 0.

(** [app.get('/notifications', ...)]; each of the three query parameters is
    a string or absent (a parameter given twice, which Express hands over
    as an array, is not modelled).  [if (userId)] holds for a string that
    is not empty. *)
Definition get_notifications (e : env) (user_id limit offset : option string)
    : M Res.response :=
  try_catch
    (let filter :=
       match user_id with
       | Some u => if String.eqb u "" then None else Some (Some u)
       | None => None
       end in
     rows ← query_select_page e 0 filter
               (Pg.prepareNumber (Some (page_limit limit)))
               (Pg.prepareNumber (Some (page_offset offset)));
     notifications ← lift (mapM (to_json true) rows);
     mret (Res.Response 200 (Res.Many notifications (length notifications))))
    (fun error =>
       _ ← console_error ("error listing notifications: " +:+ error);
       mret (Res.Response 500 (Res.Error error))).

(** [app.get('/health', ...)] *)
Definition get_health : M Res.response :=
  mret (Res.Response 200 Res.Health).

(** ** Runs of the service *)

(** What can happen to the service: one of the four requests, or one turn
    of the worker loop. *)
Inductive event : Type :=
| POST_notifications (b : Req.body)
| GET_notification (id : string)
| GET_notifications (user_id limit offset : option string)
| GET_health
| Worker.

(** The answer (none for the worker) and the world afterwards.  No handler
    lets an error out: each has its [catch]. *)
Definition handle (e : env) (ev : event) : M (option Res.response) :=
  match ev with
  | POST_notifications b => Some <$> post_notifications e b
  | GET_notification id => Some <$> get_notification e id
  | GET_notifications u l o => Some <$> get_notifications e u l o
  | GET_health => Some <$> get_health
  | Worker => _ ← processQueue_iteration e; mret None
  end.

Definition step (e : env) (ev : event) (w : world) : world := (handle e ev w).2.

(** The worlds the service gets to from [init]. *)
Inductive reachable : world → Prop :=
| reachable_init : reachable init
| reachable_step e ev w : reachable w → reachable (step e ev w).

(** A run: the events in the order they happen, each with its environment.
    [run] gives every event with the answer it got, and the world at the
    end. *)
Fixpoint run (trace : list (env * event)) (w : world)
  : list (event * option Res.response) * world :=
  match trace with
  | (e, ev) :: trace' =>
      let '(o, w') := handle e ev w in
      let '(h, w'') := run trace' w' in
      ((ev, match o with Return r => r | Throw _ => None end) :: h, w'')
  | [] => ([], w)
  end.

(** The [id]s the admission handler has answered in a run, oldest first. *)
Definition issued (h : list (event * option Res.response)) : list Z :=
  flat_map (fun x =>
    match x with
    | (POST_notifications _, Some r) =>
        match Res.body r with
        | Res.One n => [Res.id n]
        | _ => []
        end
    | _ => []
    end) h.

(** Every call answered, at instant [t]. *)
Definition all_up (t : Z) : env := Env t (fun _ => true) true.

(** The number a list of decimal digits writes, after [a]. *)
Definition decimal (a : Z) (ns : list N) : Z :=
  foldl (fun a d => a * 10 + Z.of_N d) a ns.

(** Bodies for the examples. *)
Definition alert (user : JS.value) (channel : string) : Req.body :=
  Req.Body user (JS.JStr "alert") (JS.JStr channel) JS.JUndefined (JS.JStr "hi").

(** A body the admission handler lets through to the INSERT, and whose
    values the columns take, making the row [n] at instant [t]: the four
    required fields are truthy, the channel is one of the three, [user_id]
    reads as an integer of the column, and the texts fit their columns. *)
Definition valid (b : Req.body) (t : Z) (n : Pg.notification) : Prop :=
  missing_required b = false
  ∧ JS.includes channels (Req.channel b) = true
  ∧ Pg.bind_params
      (Pg.prepareValue (Req.user_id b)) (Pg.prepareValue (Req.type b))
      (Pg.prepareValue (Req.channel b))
      (Pg.prepareValue (JS.or_null (Req.subject b)))
      (Pg.prepareValue (Req.message b)) ≫= Pg.new_row t = Return n.

(** What one statement can do to the database at instant [t]: nothing; use
    up a value of the sequence (an INSERT that fails after [nextval]); put
    a fresh 'pending' row under the next value of the sequence; or mark the
    row of one key as sent. *)
Inductive db_step (t : Z) : Pg.database → Pg.database → Prop :=
| db_same d : db_step t d d
| db_skip d :
    db_step t d (Pg.Database (Pg.notifications d) (Pg.notifications_id_seq d + 1))
| db_insert d n :
    let id := Pg.notifications_id_seq d + 1 in
    Pg.notifications d !! id = None →
    Pg.status n = Some "pending" →
    Pg.sent_at n = None →
    db_step t d (Pg.Database (<[id := n]> (Pg.notifications d)) id)
| db_update d i :
    db_step t d (Pg.Database (alter (Pg.set_sent t) i (Pg.notifications d))
                   (Pg.notifications_id_seq d)).

(** Every key of the table is a value the sequence has handed out. *)
Definition keys_issued (d : Pg.database) : Prop :=
  map_Forall (fun i _ => i ≤ Pg.notifications_id_seq d) (Pg.notifications d).

(** [sent_at] is there exactly when [status] is 'sent'. *)
Definition sent_at_iff_sent (n : Pg.notification) : Prop :=
  Pg.sent_at n ≠ None ↔ Pg.status n = Some "sent".

(** Worlds for the examples: one row under the key 1 with the given
    channel, status and [sent_at], and that key waiting in the queue. *)
Definition waiting (channel : string) (status : string) (sent_at : option Z) : world :=
  World
    (Pg.Database
       {[ 1 := Pg.Notification 7 "alert" channel None "hi" (Some status) (Some 5) sent_at ]}
       1)
    ["1"] [] [].

(** The world after [k] admissions, one at each instant from 1 to [k],
    with every call answered: [k] rows, under the keys 1 to [k]. *)
Definition crowded (k : nat) : world :=
  (run ((fun t => (all_up t, POST_notifications (alert (JS.JNum 7) "email")))
        <$> seqZ 1 (Z.of_nat k)) init).2.

(** An [id] the INTEGER column can hold. *)
Definition in_int4 (i : Z) : Prop := - Pg.int4_max - 1 ≤ i ≤ Pg.int4_max.

(** The lines the [catch] blocks write. *)
Definition error_creating (err : string) : string :=
  "error creating notification: " +:+ err.

Definition error_processing (err : string) : string :=
  "error processing queue: " +:+ err.

(** A row as the service makes them: its key is a value the sequence has
    handed out, its channel is one of the three, its status is 'pending' or
    'sent', and it has a [created_at]. *)
Definition row_ok (d : Pg.database) (i : Z) (n : Pg.notification) : Prop :=
  1 ≤ i ≤ Pg.notifications_id_seq d
  ∧ Pg.channel n ∈ channels
  ∧ (Pg.status n = Some "pending" ∨ Pg.status n = Some "sent")
  ∧ is_Some (Pg.created_at n).

Definition db_ok (d : Pg.database) : Prop :=
  0 ≤ Pg.notifications_id_seq d ≤ Pg.int4_max
  ∧ map_Forall (row_ok d) (Pg.notifications d).

(** The key [i] has a row, and its status is 'pending'. *)
Definition pending (d : Pg.database) (i : Z) : Prop :=
  ∃ n, Pg.notifications d !! i = Some n ∧ Pg.status n = Some "pending".

(** The queue holds the texts of [ids], the newest first: no [id] twice,
    and each the key of a 'pending' row. *)
Definition queue_of (w : world) (ids : list Z) : Prop :=
  notification_queue w = JS.toString <$> ids
  ∧ NoDup ids
  ∧ Forall (pending (db w)) ids.

(** Redis answers, and so does the database for the SELECT and the UPDATE
    of a turn of the worker. *)
Definition up (e : env) : Prop :=
  redis_up e = true ∧ pg_up e 0 = true ∧ pg_up e 1 = true.

(** The WHERE clause of the list handler: there for a [user_id] of the
    query that is not empty. *)
Definition user_filter (u : option string) : option Pg.param :=
  match u with
  | Some s => if String.eqb s "" then None else Some (Some s)
  | None => None
  end.

Definition error_listing (err : string) : string :=
  "error listing notifications: " +:+ err.

(** [a] was created no earlier than [b]. *)
Definition not_older (a b : Res.notification) : Prop :=
  Res.created_at b ≤ Res.created_at a.

(** The rows the list handler selects among, for a bound filter. *)
Definition matching (u : option (option Z)) (d : Pg.database) : list Pg.row :=
  match u with
  | None => map_to_list (Pg.notifications d)
  | Some u =>
      List.filter (fun r : Pg.row => bool_decide (Some (Pg.user_id r.2) = u))
        (map_to_list (Pg.notifications d))
  end.

(** * Properties *)

(** ** Numbers written by [toString] are read back *)

Section Decimal.

Implicit Types (ns : list N) (l : list ascii).

Lemma digit_pretty_N_char (d : N) :
  (d < 10)%N → JS.digit 10 (pretty_N_char d) = Some (Z.of_N d).
Proof.
  intros Hd.
  assert (d = 0 ∨ d = 1 ∨ d = 2 ∨ d = 3 ∨ d = 4 ∨ d = 5 ∨ d = 6
          ∨ d = 7 ∨ d = 8 ∨ d = 9)%N as Hcases by lia.
  repeat (destruct Hcases as [-> | Hcases]; [reflexivity |]).
  by subst.
Qed.

(** No white space, of JavaScript or of C, starts with a digit or with
    the minus sign. *)
Lemma JS_skip_spaces_digit (d : N) l :
  JS.skip_spaces (pretty_N_char d :: l) = pretty_N_char d :: l.
Proof.
  unfold pretty_N_char. repeat case_match; by destruct l as [| c2 [| c3 l]].
Qed.

Lemma JS_skip_spaces_minus l : JS.skip_spaces ("-"%char :: l) = "-"%char :: l.
Proof. by destruct l as [| c2 [| c3 l]]. Qed.

Lemma skip_spaces_digit (d : N) l :
  Pg.skip_spaces (pretty_N_char d :: l) = pretty_N_char d :: l.
Proof. unfold pretty_N_char. by repeat case_match. Qed.

(** [pretty_N_go x s] puts the digits of [x] in front of [s]. *)
Lemma pretty_N_go_digits (x : N) (s : string) :
  ∃ ns, list_ascii_of_string (pretty_N_go x s)
        = ((pretty_N_char <$> ns) ++ list_ascii_of_string s)%list
      ∧ Forall (fun d => (d < 10)%N) ns
      ∧ decimal 0 ns = Z.of_N x
      ∧ ((0 < x)%N → ns ≠ []).
Proof.
  revert s. induction (N.lt_wf_0 x) as [x _ IH]. intros s.
  destruct (decide (0 < x)%N) as [Hpos | Hzero].
  - rewrite pretty_N_go_step by done.
    destruct (IH (x `div` 10)%N (N.div_lt x 10 Hpos eq_refl)
                (String (pretty_N_char (x `mod` 10)) s))
      as (ns & Hchars & Hlt & Hval & _).
    exists (ns ++ [x `mod` 10]%N)%list. split_and!.
    + rewrite Hchars, fmap_app. simpl. by rewrite <- app_assoc.
    + apply Forall_app. split; [done |].
      apply Forall_singleton. by apply N.mod_lt.
    + unfold decimal in *. rewrite foldl_app. simpl. rewrite Hval.
      rewrite (N.div_mod x 10) at 3 by done. lia.
    + intros _. by destruct ns.
  - assert (x = 0%N) as -> by lia. exists []. by rewrite pretty_N_go_0.
Qed.

Lemma read_digits_decimal ns l (underscore : bool) (acc : option Z) :
  Forall (fun d => (d < 10)%N) ns →
  Pg.read_digits 10 underscore acc ((pretty_N_char <$> ns) ++ l)%list
  = Pg.read_digits 10 (if ns is [] then underscore else true)
      (if ns is [] then acc else Some (decimal (default 0 acc) ns)) l.
Proof.
  intros Hns. revert underscore acc.
  induction Hns as [| d ns Hd _ IH]; intros underscore acc; [done |].
  simpl. rewrite digit_pretty_N_char by done. rewrite IH.
  by destruct ns.
Qed.

Lemma digits_decimal ns l (acc : option Z) :
  Forall (fun d => (d < 10)%N) ns →
  JS.digits 10 acc ((pretty_N_char <$> ns) ++ l)%list
  = JS.digits 10 (if ns is [] then acc else Some (decimal (default 0 acc) ns)) l.
Proof.
  intros Hns. revert acc. induction Hns as [| d ns Hd _ IH]; intros acc; [done |].
  simpl. rewrite digit_pretty_N_char by done. rewrite IH.
  by destruct ns.
Qed.

(** The text of a positive number: digits only, and as many as it takes. *)
Lemma pretty_positive_digits (p : positive) :
  ∃ d ns, list_ascii_of_string (pretty (Z.pos p)) = pretty_N_char <$> (d :: ns)
        ∧ Forall (fun d => (d < 10)%N) (d :: ns)
        ∧ decimal 0 (d :: ns) = Z.pos p.
Proof.
  destruct (pretty_N_go_digits (N.pos p) "") as (ns & Hchars & Hlt & Hval & Hne).
  destruct ns as [| d ns]; [by destruct Hne |].
  exists d, ns. split_and!; [| done | done].
  rewrite app_nil_r in Hchars. exact Hchars.
Qed.

Lemma no_sign (d : N) l :
  match pretty_N_char d :: l with
  | "-"%char :: l' => (true, l')
  | "+"%char :: l' => (false, l')
  | _ => (false, pretty_N_char d :: l)
  end = (false, pretty_N_char d :: l).
Proof. unfold pretty_N_char. by repeat case_match. Qed.

Lemma no_sign_Z (d : N) l :
  match pretty_N_char d :: l with
  | "-"%char :: l' => (-1, l')
  | "+"%char :: l' => (1, l')
  | _ => (1, pretty_N_char d :: l)
  end = (1, pretty_N_char d :: l).
Proof. unfold pretty_N_char. by repeat case_match. Qed.

Lemma no_hex_prefix (d : N) ns :
  match pretty_N_char d :: (pretty_N_char <$> ns) with
  | "0"%char :: "x"%char :: l' => (16, l')
  | "0"%char :: "X"%char :: l' => (16, l')
  | _ => (10, pretty_N_char d :: (pretty_N_char <$> ns))
  end = (10, pretty_N_char d :: (pretty_N_char <$> ns)).
Proof.
  destruct ns as [| d' ns]; simpl.
  - unfold pretty_N_char. by repeat case_match.
  - generalize (pretty_N_char d). intros c.
    unfold pretty_N_char. by repeat case_match.
Qed.

Lemma no_radix_prefix (d : N) ns :
  Pg.radix_prefix (pretty_N_char d :: (pretty_N_char <$> ns))
  = (10, false, pretty_N_char d :: (pretty_N_char <$> ns)).
Proof.
  unfold Pg.radix_prefix. destruct ns as [| d' ns]; simpl.
  - unfold pretty_N_char. by repeat case_match.
  - generalize (pretty_N_char d). intros c.
    unfold pretty_N_char. by repeat case_match.
Qed.

(** What the integer input function of PostgreSQL makes of an integer
    written in full: the integer, if it is in range. *)
Lemma int_in_pretty (max n : Z) :
  Pg.int_in max (pretty n)
  = if (- max - 1 <=? n) && (n <=? max) then Some n else None.
Proof.
  unfold Pg.int_in. destruct n as [| p | p].
  - reflexivity.
  - destruct (pretty_positive_digits p) as (d & ns & -> & Hlt & Hval).
    rewrite fmap_cons, skip_spaces_digit, no_sign, no_radix_prefix.
    rewrite <- fmap_cons, <- (app_nil_r (_ <$> _)), read_digits_decimal by done.
    change (default 0 None) with 0. by rewrite Hval.
  - destruct (pretty_positive_digits p) as (d & ns & Hchars & Hlt & Hval).
    change (list_ascii_of_string (pretty (Z.neg p)))
      with ("-"%char :: list_ascii_of_string (pretty (Z.pos p))).
    rewrite Hchars. change (Pg.skip_spaces ("-"%char :: ?l)) with ("-"%char :: l).
    cbv iota beta. rewrite fmap_cons, no_radix_prefix.
    rewrite <- fmap_cons, <- (app_nil_r (_ <$> _)), read_digits_decimal by done.
    change (default 0 None) with 0. by rewrite Hval.
Qed.

(** [parseInt] reads an integer written in full, and rounds it. *)
Lemma parseInt_pretty (n : Z) : JS.parseInt (pretty n) = Some (JS.to_double n).
Proof.
  unfold JS.parseInt. destruct n as [| p | p].
  - reflexivity.
  - destruct (pretty_positive_digits p) as (d & ns & -> & Hlt & Hval).
    rewrite fmap_cons, JS_skip_spaces_digit, no_sign_Z, no_hex_prefix.
    rewrite <- fmap_cons, <- (app_nil_r (_ <$> _)), digits_decimal by done.
    change (default 0 None) with 0. rewrite Hval. simpl. by destruct p.
  - destruct (pretty_positive_digits p) as (d & ns & Hchars & Hlt & Hval).
    change (list_ascii_of_string (pretty (Z.neg p)))
      with ("-"%char :: list_ascii_of_string (pretty (Z.pos p))).
    rewrite Hchars, JS_skip_spaces_minus. cbv iota beta.
    rewrite fmap_cons, no_hex_prefix.
    rewrite <- fmap_cons, <- (app_nil_r (_ <$> _)), digits_decimal by done.
    change (default 0 None) with 0. rewrite Hval. simpl. by destruct p.
Qed.

(** Up to 2^53 every integer is a double, written in full. *)
Lemma to_double_safe (n : Z) : JS.safe_integer n → JS.to_double n = n.
Proof.
  unfold JS.safe_integer, JS.to_double. intros Hn.
  destruct (Z.abs n <? 2 ^ 53) eqn:Hlt; [done |].
  apply Z.ltb_ge in Hlt.
  assert (n = 2 ^ 53 ∨ n = - 2 ^ 53) as [-> | ->] by lia; by vm_compute.
Qed.

Lemma toString_safe (n : Z) : JS.safe_integer n → JS.toString n = pretty n.
Proof.
  intros Hn. unfold JS.toString. rewrite to_double_safe by done. cbv zeta.
  unfold JS.safe_integer in Hn. by rewrite (proj2 (Z.leb_le _ _)) by lia.
Qed.

(** Beyond 2^53 a double is at least 2^53, and has the sign of what was
    rounded. *)
Lemma to_double_large (n : Z) :
  2 ^ 53 ≤ Z.abs n →
  2 ^ 53 ≤ Z.abs (JS.to_double n) ∧ (n < 0 ↔ JS.to_double n < 0).
Proof.
  intros Hn. unfold JS.to_double. rewrite (proj2 (Z.ltb_ge _ _)) by done.
  cbv zeta. set (a := Z.abs n) in *.
  assert (0 < a) as Ha by lia.
  pose proof (Z.log2_spec a Ha) as [Hlo _].
  assert (53 ≤ Z.log2 a) as Hlog.
  { change 53 with (Z.log2 (2 ^ 53)). by apply Z.log2_le_mono. }
  set (e := Z.log2 a - 52) in *.
  assert (2 ^ Z.log2 a = 2 ^ 52 * 2 ^ e) as Hpow.
  { unfold e. rewrite <- Z.pow_add_r by lia. f_equal. lia. }
  assert (0 < 2 ^ e) as He by (apply Z.pow_pos_nonneg; lia).
  assert (2 ≤ 2 ^ e) as He2.
  { change 2 with (2 ^ 1) at 1. apply Z.pow_le_mono_r; lia. }
  assert (2 ^ 52 ≤ a / 2 ^ e) as Hq.
  { apply Z.div_le_lower_bound; [done |]. lia. }
  set (q := if _ : bool then a / 2 ^ e + 1 else a / 2 ^ e).
  assert (2 ^ 52 ≤ q) as Hq' by (unfold q; case_match; lia).
  assert (2 ^ 53 ≤ Z.min (q * 2 ^ e) (2 ^ 1024)) as Hmin.
  { apply Z.min_glb; [| by vm_compute]. change (2 ^ 53) with (2 ^ 52 * 2). nia. }
  revert Hmin. generalize (Z.min (q * 2 ^ e) (2 ^ 1024)). intros m Hmin.
  clear -Hn Hmin. subst a. destruct n as [| p | p]; simpl Z.sgn; lia.
Qed.

Lemma to_double_sign (n : Z) : n < 0 ↔ JS.to_double n < 0.
Proof.
  destruct (decide (2 ^ 53 ≤ Z.abs n)) as [Hlarge | Hsmall].
  - by apply to_double_large.
  - rewrite to_double_safe; [done |]. unfold JS.safe_integer. lia.
Qed.

(** The shortest numeral of a double beyond 2^53 is beyond 2^53 too. *)
Lemma shortest_at_large (v p c : Z) :
  2 ^ 53 < v → 0 < p → JS.shortest_at v p = Some c → 2 ^ 53 ≤ c.
Proof.
  intros Hv Hp. unfold JS.shortest_at.
  assert (∀ x, 0 ≤ x → JS.to_double x = v → 2 ^ 53 ≤ x) as Hback.
  { intros x Hx Hxv. destruct (decide (x < 2 ^ 53)) as [Hsmall |]; [| lia].
    rewrite to_double_safe in Hxv by (unfold JS.safe_integer; lia). lia. }
  assert (0 ≤ v / p * p) as Hlo.
  { apply Z.mul_nonneg_nonneg; [| lia]. apply Z.div_pos; lia. }
  destruct (JS.to_double (v / p * p) =? v) eqn:Hl;
    destruct (JS.to_double (v / p * p + p) =? v) eqn:Hh;
    try apply Z.eqb_eq in Hl; try apply Z.eqb_eq in Hh;
    intros [= <-]; repeat case_match; first [apply Hback; [lia | done] | done].
Qed.

Lemma shortest_large (v : Z) : 2 ^ 53 < v → 2 ^ 53 ≤ JS.shortest v.
Proof.
  intros Hv. unfold JS.shortest.
  destruct (head _) as [c |] eqn:Hhead; simpl; [| lia].
  apply head_Some_elem_of, list_elem_of_omap in Hhead as (k & _ & Hc).
  apply shortest_at_large in Hc; [done | done |].
  apply Z.pow_pos_nonneg; lia.
Qed.

(** No integer is read from a numeral in exponential form, nor from
    [Infinity]. *)
Lemma int_in_exponential (max : Z) (p : positive) (sign : bool) :
  Pg.int_in max ((if sign then "-" else "") +:+ JS.exponential (Z.pos p)) = None.
Proof.
  unfold JS.exponential.
  destruct (pretty_positive_digits p) as (d & ns & -> & _ & _).
  rewrite fmap_cons. generalize (pretty_N_char <$> ns). intros rest.
  destruct (JS.strip_zeros rest) as [| c l]; unfold pretty_N_char;
    destruct sign; by repeat case_match.
Qed.

(** What [toString] writes: the number in full up to 2^53; beyond, a
    numeral beyond 2^53 with the sign of the number, or a text no integer
    is read from. *)
Lemma toString_cases (n : Z) :
  let v := JS.to_double n in
  JS.safe_integer v ∧ JS.toString n = pretty v
  ∨ (∃ c, 2 ^ 53 ≤ c ∧ JS.toString n = pretty (if v <? 0 then - c else c))
  ∨ ∀ max, Pg.int_in max (JS.toString n) = None.
Proof.
  intros v. unfold JS.toString. fold v. cbv zeta.
  destruct (Z.abs v <=? 2 ^ 53) eqn:Hsafe.
  { left. apply Z.leb_le in Hsafe. split; [unfold JS.safe_integer; lia | done]. }
  apply Z.leb_gt in Hsafe. right.
  destruct (2 ^ 1024 <=? Z.abs v).
  { right. intros max. by destruct (v <? 0). }
  pose proof (shortest_large (Z.abs v) Hsafe) as Hc.
  destruct (JS.shortest (Z.abs v) <? 10 ^ 21); [left; eauto |].
  right. intros max.
  destruct (JS.shortest (Z.abs v)) as [| p | p]; [lia | | lia].
  destruct (v <? 0).
  - apply (int_in_exponential max p true).
  - apply (int_in_exponential max p false).
Qed.

Lemma not_in_range (max x : Z) :
  ¬ (- max - 1 ≤ x ≤ max) → (- max - 1 <=? x) && (x <=? max) = false.
Proof. intros Hx. apply andb_false_iff. rewrite !Z.leb_gt. lia. Qed.

Lemma in_range (max x : Z) :
  - max - 1 ≤ x ≤ max → (- max - 1 <=? x) && (x <=? max) = true.
Proof. intros Hx. apply andb_true_iff. rewrite !Z.leb_le. lia. Qed.

(** What the integer input function of PostgreSQL makes of the text
    JavaScript writes for an integer: the integer, if it is in range, for
    a range within the integers that are doubles. *)
Lemma int_in_toString (max n : Z) :
  0 ≤ max < 2 ^ 53 - 1 →
  Pg.int_in max (JS.toString n)
  = if (- max - 1 <=? n) && (n <=? max) then Some n else None.
Proof.
  intros Hmax. destruct (decide (JS.safe_integer n)) as [Hn | Hn].
  - rewrite toString_safe by done. apply int_in_pretty.
  - assert (2 ^ 53 ≤ Z.abs n) as Hlarge by (unfold JS.safe_integer in Hn; lia).
    destruct (to_double_large n Hlarge) as [Hv _].
    rewrite (not_in_range max n) by lia.
    destruct (toString_cases n) as [[_ ->] | [(c & Hc & ->) | ->]]; [| | done].
    + rewrite int_in_pretty. by rewrite not_in_range by lia.
    + rewrite int_in_pretty. rewrite not_in_range; [done |]. case_match; lia.
Qed.

Lemma int_in_toString_safe (max n : Z) :
  JS.safe_integer n →
  Pg.int_in max (JS.toString n)
  = if (- max - 1 <=? n) && (n <=? max) then Some n else None.
Proof. intros Hn. rewrite toString_safe by done. apply int_in_pretty. Qed.

(** [parseInt] reads back what [toString] writes. *)
Lemma parseInt_toString (n : Z) :
  JS.safe_integer n → JS.parseInt (JS.toString n) = Some n.
Proof.
  intros Hn. by rewrite toString_safe, parseInt_pretty, to_double_safe.
Qed.

(** The text of an integer of the column is the text of no other
    number. *)
Lemma toString_inj (i j : Z) :
  - Pg.int4_max - 1 ≤ j ≤ Pg.int4_max → JS.toString i = JS.toString j → i = j.
Proof.
  intros Hj Heq.
  assert (0 ≤ Pg.int4_max < 2 ^ 53 - 1) as Hmax by (by vm_compute).
  pose proof (int_in_toString Pg.int4_max i Hmax) as Hi.
  rewrite Heq, int_in_toString in Hi by done.
  rewrite (in_range _ j) in Hi by done.
  destruct (_ && _); congruence.
Qed.

End Decimal.

(** ** The statements *)

Section Statements.

Implicit Types (d : Pg.database) (n : Pg.notification) (p : Pg.param).

Lemma in_int4_safe (i : Z) : in_int4 i → JS.safe_integer i.
Proof. unfold in_int4, JS.safe_integer, Pg.int4_max. lia. Qed.

Lemma int4_max_safe : 0 ≤ Pg.int4_max < 2 ^ 53 - 1.
Proof. by vm_compute. Qed.

Lemma bind_int_number (max i : Z) :
  JS.safe_integer i →
  - max - 1 ≤ i ≤ max →
  Pg.bind_int max (Pg.prepareNumber (Some i)) = Return (Some i).
Proof.
  intros Hsafe Hi. unfold Pg.bind_int, Pg.prepareNumber. simpl.
  by rewrite int_in_toString_safe, in_range.
Qed.

Lemma bind_int_number_out (i : Z) :
  ¬ in_int4 i →
  ∃ err, Pg.bind_int Pg.int4_max (Pg.prepareNumber (Some i)) = Throw err.
Proof.
  intros Hi. unfold Pg.bind_int, Pg.prepareNumber. simpl.
  rewrite int_in_toString by apply int4_max_safe.
  rewrite not_in_range by done. simpl. eauto.
Qed.

(** A negative number is refused as a LIMIT or an OFFSET, if not already
    as a number of the type. *)
Lemma bind_int_negative (max v : Z) (clause : string) :
  v < 0 →
  ∃ err, Pg.bind_int max (Pg.prepareNumber (Some v)) ≫= Pg.row_count clause
         = Throw err.
Proof.
  intros Hv. unfold Pg.bind_int, Pg.prepareNumber. simpl.
  pose proof (proj1 (to_double_sign v) Hv) as Hsign.
  assert (∀ x, x < 0 →
            ∃ err, (Some <$> or_throw
                      "invalid input syntax or value out of range for type integer"
                      (Pg.int_in max (pretty x))) ≫= Pg.row_count clause
                   = Throw err) as Hneg.
  { intros x Hx. rewrite int_in_pretty. destruct (_ && _); simpl; [| eauto].
    rewrite (proj2 (Z.ltb_lt _ _) Hx). eauto. }
  destruct (toString_cases v) as [[_ ->] | [(c & Hc & ->) | ->]].
  - by apply Hneg.
  - rewrite (proj2 (Z.ltb_lt _ _) Hsign). apply Hneg. lia.
  - simpl. eauto.
Qed.

(** The SELECT of the worker, for an [id] in the range of the column. *)
Lemma select_by_id_number (i : Z) d :
  in_int4 i →
  Pg.select_by_id (Pg.prepareNumber (Some i)) d
  = Return (from_option (fun n => [(i, n)]) [] (Pg.notifications d !! i)).
Proof.
  intros Hi. unfold Pg.select_by_id.
  by rewrite bind_int_number by (by try apply in_int4_safe).
Qed.

Lemma update_sent_number (i t : Z) d :
  in_int4 i →
  Pg.update_sent (Pg.prepareNumber (Some i)) t d
  = Return (Pg.Database (alter (Pg.set_sent t) i (Pg.notifications d))
              (Pg.notifications_id_seq d)).
Proof.
  intros Hi. unfold Pg.update_sent.
  by rewrite bind_int_number by (by try apply in_int4_safe).
Qed.

(** An UPDATE that is answered changes at most one row, to [set_sent]. *)
Lemma update_sent_return p (t : Z) d d' :
  Pg.update_sent p t d = Return d' →
  d' = d ∨ ∃ i, d' = Pg.Database (alter (Pg.set_sent t) i (Pg.notifications d))
                       (Pg.notifications_id_seq d).
Proof.
  unfold Pg.update_sent. destruct (Pg.bind_int _ p) as [[i |] | err]; simpl;
    intros [= <-]; eauto.
Qed.

(** The row a successful INSERT makes. *)
Lemma new_row_return (t : Z) v n :
  Pg.new_row t v = Return n →
  Pg.status n = Some "pending" ∧ Pg.created_at n = Some t ∧ Pg.sent_at n = None.
Proof.
  destruct v as [[[[u ty] c] s] m]. unfold Pg.new_row.
  destruct (Pg.not_null "user_id" u); [| done]. simpl.
  destruct (Pg.not_null "type" ty); [| done]. simpl.
  destruct (Pg.not_null "channel" c); [| done]. simpl.
  destruct (Pg.not_null "message" m); [| done]. simpl.
  by intros [= <-].
Qed.

(** A successful INSERT: the new key is the next value of the sequence,
    it was free, and the row is a fresh 'pending' one. *)
Lemma insert_return p1 p2 p3 p4 p5 (t : Z) d (r : Pg.row) d' :
  Pg.insert p1 p2 p3 p4 p5 t d = (Return r, d') →
  r.1 = Pg.notifications_id_seq d + 1
  ∧ r.1 ≤ Pg.int4_max
  ∧ Pg.notifications d !! r.1 = None
  ∧ d' = Pg.Database (<[r.1 := r.2]> (Pg.notifications d)) r.1
  ∧ (∃ v, Pg.bind_params p1 p2 p3 p4 p5 = Return v ∧ Pg.new_row t v = Return r.2)
  ∧ Pg.status r.2 = Some "pending"
  ∧ Pg.created_at r.2 = Some t
  ∧ Pg.sent_at r.2 = None.
Proof.
  unfold Pg.insert.
  destruct (Pg.bind_params p1 p2 p3 p4 p5) as [v | err] eqn:Hbind; [| done].
  destruct (Pg.int4_max <? Pg.notifications_id_seq d + 1) eqn:Hmax; [done |].
  destruct (Pg.new_row t v) as [n | err] eqn:Hrow; [| done].
  destruct (Pg.notifications d !! _) eqn:Hfree; [done |].
  intros [= <- <-]. simpl. apply Z.ltb_ge in Hmax.
  destruct (new_row_return _ _ _ Hrow) as (? & ? & ?).
  split_and!; eauto.
Qed.

(** A failed INSERT leaves the table as it was; the sequence may have
    moved by one. *)
Lemma insert_throw p1 p2 p3 p4 p5 (t : Z) d err d' :
  Pg.insert p1 p2 p3 p4 p5 t d = (Throw err, d') →
  Pg.notifications d' = Pg.notifications d
  ∧ Pg.notifications_id_seq d ≤ Pg.notifications_id_seq d'
    ≤ Pg.notifications_id_seq d + 1.
Proof.
  unfold Pg.insert.
  destruct (Pg.bind_params p1 p2 p3 p4 p5) as [v | err'].
  - destruct (Pg.int4_max <? _).
    + intros [= _ <-]. split; [done | lia].
    + destruct (Pg.new_row t v) as [n | err''].
      * destruct (Pg.notifications d !! _); [| done].
        intros [= _ <-]. simpl. split; [done | lia].
      * intros [= _ <-]. simpl. split; [done | lia].
  - intros [= _ <-]. split; [done | lia].
Qed.

End Statements.

(** ** The handlers, path by path *)

(** Unfolds the monad and the calls to the outside. *)
Ltac unfold_M :=
  unfold try_catch, lift, query_select_by_id, query_update_sent,
    query_select_page, pool_query, redisClient_lPush, redisClient_brPop,
    console_error, console_log, called_with;
  unfold mbind, M_bind, mret, M_ret, fmap, M_fmap.

Section Handlers.

Implicit Types (e : env) (w : world) (b : Req.body).

(** The sender always returns, and touches neither the table nor the
    queue. *)
Lemma sendNotification_returns (notif : Pg.row) w :
  ∃ lines, sendNotification notif w
           = (Return (), World (db w) (notification_queue w)
                           (lines ++ console w)%list (notif :: sender_calls w)).
Proof.
  unfold sendNotification. unfold_M. simpl.
  repeat case_match; simplify_eq; simpl;
    first [by eexists [_] | by exists []].
Qed.

(** The admission handler, path by path. *)
Lemma post_notifications_paths e b w :
  post_notifications e b w =
  if missing_required b then
    (Return (Res.Response 400 (Res.Error "missing required fields")), w)
  else if negb (JS.includes channels (Req.channel b)) then
    (Return (Res.Response 400 (Res.Error "invalid channel")), w)
  else if pg_up e 0 then
    match insert_of b (now e) (db w) with
    | (Return r, d) =>
        if redis_up e then
          let q := JS.toString r.1 :: notification_queue w in
          match to_json false r with
          | Return n =>
              (Return (Res.Response 200 (Res.One n)),
               World d q (console w) (sender_calls w))
          | Throw err =>
              (Return (Res.Response 500 (Res.Error err)),
               World d q (error_creating err :: console w) (sender_calls w))
          end
        else
          (Return (Res.Response 500 (Res.Error connection_error)),
           World d (notification_queue w)
             (error_creating connection_error :: console w) (sender_calls w))
    | (Throw err, d) =>
        (Return (Res.Response 500 (Res.Error err)),
         World d (notification_queue w) (error_creating err :: console w)
           (sender_calls w))
    end
  else
    (Return (Res.Response 500 (Res.Error connection_error)),
     World (db w) (notification_queue w)
       (error_creating connection_error :: console w) (sender_calls w)).
Proof.
  unfold post_notifications. unfold_M.
  destruct (missing_required b); [done |].
  destruct (negb _); [done |].
  destruct (pg_up e 0); [| done].
  destruct (insert_of b (now e) (db w)) as [[r | err] d]; [| done].
  simpl. destruct (redis_up e); [| done].
  simpl. by destruct (to_json false r).
Qed.

(** One turn of the worker, path by path. *)
Lemma processQueue_iteration_paths e w :
  processQueue_iteration e w =
  if redis_up e then
    match Redis.brPop (notification_queue w) with
    | (Some element, q) =>
        let w1 := World (db w) q (console w) (sender_calls w) in
        let failed err :=
          (Return (), World (db w) q (error_processing err :: console w)
                        (sender_calls w)) in
        if String.eqb element "" then (Return (), w1)
        else
          let p := Pg.prepareNumber (JS.parseInt element) in
          if pg_up e 0 then
            match Pg.select_by_id p (db w) with
            | Return rows =>
                match Pg.worker_columns <$> rows with
                | notif :: _ =>
                    let w2 := (sendNotification notif w1).2 in
                    let failed2 err :=
                      (Return (), World (db w) q (error_processing err :: console w2)
                                    (sender_calls w2)) in
                    if pg_up e 1 then
                      match Pg.update_sent p (now e) (db w) with
                      | Return d => (Return (), World d q (console w2) (sender_calls w2))
                      | Throw err => failed2 err
                      end
                    else failed2 connection_error
                | [] => (Return (), w1)
                end
            | Throw err => failed err
            end
          else failed connection_error
    | (None, q) => (Return (), World (db w) q (console w) (sender_calls w))
    end
  else
    (Return (), World (db w) (notification_queue w)
                  (error_processing connection_error :: console w) (sender_calls w)).
Proof.
  unfold processQueue_iteration. unfold_M.
  destruct (redis_up e); [| done].
  destruct (Redis.brPop _) as [[element |] q]; [| done]. simpl.
  destruct (String.eqb element ""); [done |].
  destruct (pg_up e 0); [| done]. simpl.
  destruct (Pg.select_by_id _ _) as [rows | err]; [| done]. simpl.
  destruct rows as [| r rows]; [done |]. simpl.
  destruct (sendNotification_returns (Pg.worker_columns r)
              (World (db w) q (console w) (sender_calls w)))
    as [lines Hsend].
  rewrite Hsend. simpl.
  destruct (pg_up e 1); [| done].
  by destruct (Pg.update_sent _ _ _).
Qed.

(** Reading handlers leave the table, the queue and the sender alone. *)
Lemma get_notification_reads e (id : string) w :
  let w' := (get_notification e id w).2 in
  db w' = db w ∧ notification_queue w' = notification_queue w
  ∧ sender_calls w' = sender_calls w.
Proof.
  unfold get_notification. unfold_M.
  destruct (pg_up e 0); [| done]. simpl.
  destruct (Pg.select_by_id _ _) as [[| notif rows] | err]; simpl; [done | | done].
  by destruct (to_json true notif).
Qed.

Lemma get_notifications_reads e (u l o : option string) w :
  let w' := (get_notifications e u l o w).2 in
  db w' = db w ∧ notification_queue w' = notification_queue w
  ∧ sender_calls w' = sender_calls w.
Proof.
  unfold get_notifications. unfold_M.
  destruct (pg_up e 0); [| done]. simpl.
  destruct (Pg.select_page _ _ _ _) as [rows | err]; simpl; [| done].
  by destruct (mapM (to_json true) rows).
Qed.

End Handlers.

(** ** Admission *)

Section Admission.

Implicit Types (e : env) (w : world) (b : Req.body).

(** C6: a body whose channel is not one of the three is answered 400, and
    the world (table, sequence, queue, console) is as it was. *)
Theorem invalid_channel_rejected e b w :
  JS.includes channels (Req.channel b) = false →
  post_notifications e b w
  = (Return (Res.Response 400
               (Res.Error (if missing_required b then "missing required fields"
                           else "invalid channel"))), w).
Proof.
  intros Hchannel. rewrite post_notifications_paths, Hchannel.
  by destruct (missing_required b).
Qed.

Lemma invalid_channel_rejected_witness :
  JS.includes channels (Req.channel (alert (JS.JNum 7) "pager")) = false
  ∧ post_notifications (all_up 5) (alert (JS.JNum 7) "pager") init
    = (Return (Res.Response 400 (Res.Error "invalid channel")), init).
Proof.
  split; [reflexivity |].
  apply (invalid_channel_rejected (all_up 5) (alert (JS.JNum 7) "pager") init).
  reflexivity.
Defined.

(** C10: a body whose [user_id] is 0, or whose [type], [channel] or
    [message] is the empty string, is answered 400 'missing required
    fields' and the world is as it was; yet the INSERT takes 0 for
    [user_id]: it is an integer like any other for the column. *)
Theorem falsy_required_rejected e b w :
  Req.user_id b = JS.JNum 0 ∨ Req.type b = JS.JStr ""
  ∨ Req.channel b = JS.JStr "" ∨ Req.message b = JS.JStr "" →
  post_notifications e b w
  = (Return (Res.Response 400 (Res.Error "missing required fields")), w)
  ∧ ∀ t, (insert_of (alert (JS.JNum 0) "email") t Pg.empty).1
         = Return (1, Pg.Notification 0 "alert" "email" None "hi"
                        (Some "pending") (Some t) None).
Proof.
  intros Hfalsy. split; [| done].
  rewrite post_notifications_paths.
  assert (missing_required b = true) as ->; [| done].
  unfold missing_required.
  destruct Hfalsy as [-> | [-> | [-> | ->]]]; simpl;
    by rewrite ?orb_true_r.
Qed.

Lemma falsy_required_rejected_witness :
  Req.user_id (alert (JS.JNum 0) "email") = JS.JNum 0
  ∧ post_notifications (all_up 5) (alert (JS.JNum 0) "email") init
    = (Return (Res.Response 400 (Res.Error "missing required fields")), init).
Proof.
  split; [reflexivity |].
  apply (falsy_required_rejected (all_up 5) (alert (JS.JNum 0) "email") init).
  left. reflexivity.
Defined.

Lemma pool_query_fst {A} e (k : nat)
    (statement : Pg.database → outcome A * Pg.database) w :
  (pool_query e k statement w).1
  = if pg_up e k then (statement (db w)).1 else Throw connection_error.
Proof.
  unfold pool_query. destruct (pg_up e k); [| done].
  by destruct (statement (db w)).
Qed.

(** C3: the [id] goes into the queue only once its row is in the table;
    when the INSERT throws, nothing goes into the queue and the table is
    as it was; and when the INSERT has returned a row and the push
    throws, the answer is 500, the queue is as it was, and the row is in
    the table with status 'pending'. *)
Theorem enqueue_after_insert e b w :
  let w' := (post_notifications e b w).2 in
  (notification_queue w' ≠ notification_queue w →
   ∃ id n, notification_queue w' = JS.toString id :: notification_queue w
         ∧ Pg.notifications (db w) !! id = None
         ∧ Pg.notifications (db w') !! id = Some n
         ∧ Pg.status n = Some "pending")
  ∧ (∀ err, (pool_query e 0 (insert_of b (now e)) w).1 = Throw err →
     notification_queue w' = notification_queue w
     ∧ Pg.notifications (db w') = Pg.notifications (db w))
  ∧ (∀ r, missing_required b = false →
     JS.includes channels (Req.channel b) = true →
     (pool_query e 0 (insert_of b (now e)) w).1 = Return r →
     redis_up e = false →
     (post_notifications e b w).1
     = Return (Res.Response 500 (Res.Error connection_error))
     ∧ notification_queue w' = notification_queue w
     ∧ Pg.notifications (db w') !! r.1 = Some r.2
     ∧ Pg.status r.2 = Some "pending").
Proof.
  intros w'. subst w'. rewrite post_notifications_paths, pool_query_fst.
  destruct (missing_required b); [by split_and!; intros |].
  destruct (JS.includes channels (Req.channel b)); simpl;
    [| by split_and!; intros].
  destruct (pg_up e 0); [| by split_and!; intros].
  destruct (insert_of b (now e) (db w)) as [[r | err] d] eqn:Hinsert.
  - apply insert_return in Hinsert
      as (Hid & _ & Hfree & -> & _ & Hstatus & _ & _).
    assert (<[r.1 := r.2]> (Pg.notifications (db w)) !! r.1 = Some r.2)
      as Hin by apply lookup_insert_eq.
    split_and!.
    + intros Hqueue. exists r.1, r.2.
      destruct (redis_up e); [| done].
      by destruct (to_json false r).
    + done.
    + intros r' _ _ [= <-] ->. done.
  - apply insert_throw in Hinsert as [Htable _].
    split_and!; [done | by intros | by intros].
Qed.

(** The push fails after the INSERT of a valid body. *)
Lemma enqueue_after_insert_witness :
  let e := Env 5 (fun _ => true) false in
  let w' := (post_notifications e (alert (JS.JNum 7) "email") init).2 in
  notification_queue w' = []
  ∧ Pg.notifications (db w') !! 1
    = Some (Pg.Notification 7 "alert" "email" None "hi" (Some "pending")
              (Some 5) None).
Proof.
  intros e w'.
  destruct (enqueue_after_insert e (alert (JS.JNum 7) "email") init)
    as (_ & _ & Hpush).
  destruct (Hpush (1, Pg.Notification 7 "alert" "email" None "hi"
                        (Some "pending") (Some 5) None))
    as (_ & Hqueue & Hrow & _); try reflexivity.
  split; [exact Hqueue | exact Hrow].
Defined.

End Admission.

(** ** What a step does to the database *)

Section Steps.

Implicit Types (e : env) (w : world) (d : Pg.database) (t : Z).

Lemma database_eta d :
  Pg.Database (Pg.notifications d) (Pg.notifications_id_seq d) = d.
Proof. by destruct d. Qed.

Lemma insert_db_step p1 p2 p3 p4 p5 t d :
  db_step t d (Pg.insert p1 p2 p3 p4 p5 t d).2.
Proof.
  destruct (Pg.insert p1 p2 p3 p4 p5 t d) as [[r | err] d'] eqn:Hinsert.
  - apply insert_return in Hinsert as (-> & _ & Hfree & -> & _ & ? & _ & ?).
    by apply db_insert.
  - revert Hinsert. unfold Pg.insert.
    destruct (Pg.bind_params _ _ _ _ _); [| intros [= _ <-]; apply db_same].
    destruct (Pg.int4_max <? _); [intros [= _ <-]; apply db_same |].
    destruct (Pg.new_row _ _); [| intros [= _ <-]; apply db_skip].
    destruct (Pg.notifications d !! _); [| done].
    intros [= _ <-]. apply db_skip.
Qed.

Lemma post_notifications_db_step e b w :
  db_step (now e) (db w) (db (post_notifications e b w).2).
Proof.
  rewrite post_notifications_paths.
  destruct (missing_required b); [apply db_same |].
  destruct (negb _); [apply db_same |].
  destruct (pg_up e 0); [| apply db_same].
  pose proof (insert_db_step
    (Pg.prepareValue (Req.user_id b)) (Pg.prepareValue (Req.type b))
    (Pg.prepareValue (Req.channel b))
    (Pg.prepareValue (JS.or_null (Req.subject b)))
    (Pg.prepareValue (Req.message b)) (now e) (db w)) as Hstep.
  fold (insert_of b (now e)) in Hstep.
  destruct (insert_of b (now e) (db w)) as [[r | err] d]; [| done].
  destruct (redis_up e); [| done]. simpl.
  by destruct (to_json false r).
Qed.

Lemma processQueue_iteration_db_step e w :
  db_step (now e) (db w) (db (processQueue_iteration e w).2).
Proof.
  rewrite processQueue_iteration_paths.
  destruct (redis_up e); [| apply db_same].
  destruct (Redis.brPop _) as [[element |] q]; [| apply db_same]. simpl.
  destruct (String.eqb element ""); [apply db_same |].
  destruct (pg_up e 0); [| apply db_same].
  destruct (Pg.select_by_id _ _) as [rows | err]; [| apply db_same].
  destruct (Pg.worker_columns <$> rows); [apply db_same |].
  destruct (pg_up e 1); [| apply db_same].
  destruct (Pg.update_sent _ _ _) as [d' | err] eqn:Hupdate; [| apply db_same].
  apply update_sent_return in Hupdate as [-> | [i ->]];
    [apply db_same | apply db_update].
Qed.

(** Whatever happens, the database moves by [db_step]. *)
Lemma step_db_step e (ev : event) w : db_step (now e) (db w) (db (step e ev w)).
Proof.
  unfold step, handle. destruct ev as [b | id | u l o | |].
  - pose proof (post_notifications_db_step e b w) as Hstep.
    unfold fmap, M_fmap. by destruct (post_notifications e b w) as [[r | err] w'].
  - destruct (get_notification_reads e id w) as (Hdb & _).
    unfold fmap, M_fmap. destruct (get_notification e id w) as [[r | err] w'];
      simpl in *; rewrite Hdb; apply db_same.
  - destruct (get_notifications_reads e u l o w) as (Hdb & _).
    unfold fmap, M_fmap. destruct (get_notifications e u l o w) as [[r | err] w'];
      simpl in *; rewrite Hdb; apply db_same.
  - apply db_same.
  - pose proof (processQueue_iteration_db_step e w) as Hstep.
    unfold mbind, M_bind. by destruct (processQueue_iteration e w) as [[[] | err] w'].
Qed.

Lemma db_step_seq t d d' :
  db_step t d d' → Pg.notifications_id_seq d ≤ Pg.notifications_id_seq d'.
Proof. destruct 1; simpl; lia. Qed.

Lemma db_step_keys_issued t d d' :
  db_step t d d' → keys_issued d → keys_issued d'.
Proof.
  unfold keys_issued. destruct 1 as [d | d | d n id Hfree _ _ | d i]; simpl;
    intros Hkeys.
  - done.
  - eapply map_Forall_impl; [done |]. simpl. intros. lia.
  - apply map_Forall_insert_2; [lia |].
    eapply map_Forall_impl; [done |]. simpl. intros. lia.
  - intros j n Hj. apply lookup_alter_Some in Hj as [(-> & x & Hx & _) | (_ & Hj)];
      by eapply Hkeys.
Qed.

Lemma db_step_sent_at t d d' :
  db_step t d d' →
  map_Forall (fun _ => sent_at_iff_sent) (Pg.notifications d) →
  map_Forall (fun _ => sent_at_iff_sent) (Pg.notifications d').
Proof.
  destruct 1 as [d | d | d n id _ Hstatus Hsent | d i]; simpl; intros Hinv.
  - done.
  - done.
  - apply map_Forall_insert_2; [| done].
    unfold sent_at_iff_sent. rewrite Hstatus, Hsent. split; [done | discriminate].
  - intros j n Hj. apply lookup_alter_Some in Hj as [(-> & x & Hx & ->) | (_ & Hj)].
    + unfold sent_at_iff_sent. simpl. split; [done | discriminate].
    + by eapply Hinv.
Qed.

End Steps.

(** ** Reachable worlds *)

Section Reachable.

Implicit Types (e : env) (w : world) (b : Req.body).

(** C8: in every world the service gets to from the empty one, by
    requests and turns of the worker in any order and with any calls
    failing, every row has a [sent_at] exactly when its status is
    'sent'. *)
Theorem sent_at_iff_status_sent w (id : Z) (n : Pg.notification) :
  reachable w →
  Pg.notifications (db w) !! id = Some n →
  Pg.sent_at n ≠ None ↔ Pg.status n = Some "sent".
Proof.
  intros Hreach. revert id n.
  change (map_Forall (fun _ => sent_at_iff_sent) (Pg.notifications (db w))).
  induction Hreach as [| e ev w _ IH].
  - apply map_Forall_empty.
  - by eapply db_step_sent_at; [apply step_db_step |].
Qed.

(** One admission, then one turn of the worker. *)
Lemma sent_at_iff_status_sent_witness :
  let w := step (all_up 9) Worker
             (step (all_up 5) (POST_notifications (alert (JS.JNum 7) "email")) init) in
  let n := Pg.Notification 7 "alert" "email" None "hi" (Some "sent") (Some 5) (Some 9) in
  Pg.notifications (db w) !! 1 = Some n
  ∧ (Pg.sent_at n ≠ None ↔ Pg.status n = Some "sent").
Proof.
  intros w n. split; [reflexivity |].
  apply (sent_at_iff_status_sent w 1 n).
  - apply reachable_step, reachable_step, reachable_init.
  - reflexivity.
Defined.

(** A run only moves the sequence up, and keeps the keys of the table
    below it. *)
Lemma post_notifications_issued e b w (n : Res.notification) w' :
  post_notifications e b w = (Return (Res.Response 200 (Res.One n)), w') →
  Res.id n = Pg.notifications_id_seq (db w) + 1
  ∧ Pg.notifications_id_seq (db w') = Pg.notifications_id_seq (db w) + 1.
Proof.
  rewrite post_notifications_paths.
  destruct (missing_required b); [done |].
  destruct (negb _); [done |].
  destruct (pg_up e 0); [| done].
  destruct (insert_of b (now e) (db w)) as [[r | err] d] eqn:Hinsert; [| done].
  apply insert_return in Hinsert as (Hid & _ & _ & -> & _).
  destruct (redis_up e); [| done]. simpl.
  unfold to_json. destruct (Pg.created_at r.2); [| done]. simpl.
  by intros [= <- <-].
Qed.

Lemma post_notifications_one e b w (n : Res.notification) (c : Z) w' :
  post_notifications e b w = (Return (Res.Response c (Res.One n)), w') → c = 200.
Proof.
  rewrite post_notifications_paths.
  repeat case_match; by intros [= <-].
Qed.

Lemma run_issued (trace : list (env * event)) w h w' :
  run trace w = (h, w') →
  Pg.notifications_id_seq (db w) ≤ Pg.notifications_id_seq (db w')
  ∧ Forall (fun id => Pg.notifications_id_seq (db w) < id
                      ≤ Pg.notifications_id_seq (db w')) (issued h)
  ∧ NoDup (issued h)
  ∧ (keys_issued (db w) → keys_issued (db w')).
Proof.
  revert w h w'. induction trace as [| [e ev] trace IH]; intros w h w'; simpl.
  - intros [= <- <-]. split_and!; [lia | done | constructor | done].
  - destruct (handle e ev w) as [o w1] eqn:Hhandle.
    destruct (run trace w1) as [h1 w2] eqn:Hrun.
    intros [= <- <-].
    destruct (IH _ _ _ Hrun) as (Hseq & Hissued & Hnodup & Hkeys).
    pose proof (step_db_step e ev w) as Hstep.
    unfold step in Hstep. rewrite Hhandle in Hstep. simpl in Hstep.
    pose proof (db_step_seq _ _ _ Hstep) as Hseq1.
    assert (∀ b r n, ev = POST_notifications b → o = Return (Some r) →
              Res.body r = Res.One n →
              Res.id n = Pg.notifications_id_seq (db w) + 1
              ∧ Pg.notifications_id_seq (db w1)
                = Pg.notifications_id_seq (db w) + 1) as Hone.
    { intros b [c body] n -> -> Hbody. simpl in Hbody. subst body.
      unfold handle, fmap, M_fmap in Hhandle.
      destruct (post_notifications e b w) as [[r |] w0] eqn:Hpost; [| done].
      injection Hhandle as Hr Hw. subst r w0.
      rewrite (post_notifications_one _ _ _ _ _ _ Hpost) in Hpost.
      by apply post_notifications_issued in Hpost. }
    split_and!.
    + lia.
    + unfold issued. simpl. apply Forall_app. split.
      * destruct ev as [b | | | |]; try done.
        destruct o as [[r |] |]; try done.
        destruct (Res.body r) as [| n | |] eqn:Hbody; try done.
        destruct (Hone b r n) as [-> ?]; try done.
        apply Forall_singleton. lia.
      * eapply Forall_impl; [exact Hissued |]. simpl. intros. lia.
    + unfold issued. simpl.
      destruct ev as [b | | | |]; try done.
      destruct o as [[r |] |]; try done.
      destruct (Res.body r) as [| n | |] eqn:Hbody; try done.
      destruct (Hone b r n) as [-> Hw1]; try done.
      simpl. apply NoDup_cons. split; [| done].
      intros Hin. eapply Forall_forall in Hissued; [| exact Hin]. lia.
    + intros Hw. apply Hkeys. by eapply db_step_keys_issued.
Qed.

(** The INSERT of a valid body, when the sequence has values left and
    the keys of the table are below it. *)
Lemma insert_of_valid b (t : Z) (row : Pg.notification) (d : Pg.database) :
  valid b t row →
  Pg.notifications_id_seq d < Pg.int4_max →
  keys_issued d →
  let id := Pg.notifications_id_seq d + 1 in
  insert_of b t d
  = (Return (id, row), Pg.Database (<[id := row]> (Pg.notifications d)) id).
Proof.
  intros (_ & _ & Hfits) Hmax Hkeys id. unfold insert_of, Pg.insert.
  destruct (Pg.bind_params _ _ _ _ _) as [v | err]; [| done].
  simpl in Hfits. rewrite Hfits.
  rewrite (proj2 (Z.ltb_ge _ _)) by lia.
  destruct (Pg.notifications d !! _) as [n |] eqn:Hkey; [| done].
  apply Hkeys in Hkey. simpl in Hkey. lia.
Qed.


(** C5, as the claim has it, fails: a body that passes the two checks of
    the handler, the validation there is, is not always answered with a
    record.  With ["u1"] for [user_id], as in the scenario of the
    specification, the INSERT throws on the INTEGER column and the answer
    is 500. *)
Lemma valid_input_refused :
  ¬ (∀ e b w,
       reachable w →
       pg_up e 0 = true → redis_up e = true →
       Pg.notifications_id_seq (db w) < Pg.int4_max →
       missing_required b = false →
       JS.includes channels (Req.channel b) = true →
       ∃ n w',
         post_notifications e b w = (Return (Res.Response 200 (Res.One n)), w')
         ∧ Res.status n = Some "pending"
         ∧ Res.sent_at n = Some None
         ∧ Pg.notifications (db w) !! Res.id n = None).
Proof.
  intros Hcreate.
  destruct (Hcreate (all_up 5) (alert (JS.JStr "u1") "email") init)
    as (n & w' & Hpost & _); try reflexivity; [apply reachable_init |].
  vm_compute in Hpost. discriminate Hpost.
Qed.

(** C5, amended: after any run from the empty world, a body that passes
    the two checks and whose values the columns take (see [valid]), with
    the database and Redis answering and the sequence not used up, is
    answered 200 with a record of status 'pending' under an [id] that no
    earlier answer carried and no row had.  The record answered has no
    [sent_at] at all: RETURNING leaves the column out.  The row stored
    under the [id] has status 'pending' and a NULL [sent_at], and a GET
    of that [id] then answers status 'pending' and [sent_at] null. *)
Theorem create_pending_fresh (trace : list (env * event)) e b
    (row : Pg.notification) :
  let h := (run trace init).1 in
  let w := (run trace init).2 in
  valid b (now e) row →
  pg_up e 0 = true →
  redis_up e = true →
  Pg.notifications_id_seq (db w) < Pg.int4_max →
  ∃ n : Res.notification,
    let id := Res.id n in
    let w' := World (Pg.Database (<[id := row]> (Pg.notifications (db w))) id)
                (JS.toString id :: notification_queue w) (console w)
                (sender_calls w) in
    post_notifications e b w = (Return (Res.Response 200 (Res.One n)), w')
    ∧ Res.status n = Some "pending" ∧ Res.sent_at n = None
    ∧ Pg.status row = Some "pending" ∧ Pg.sent_at row = None
    ∧ (id ∉ issued h)
    ∧ Pg.notifications (db w) !! id = None
    ∧ ∀ e', pg_up e' 0 = true →
        ∃ n', get_notification e' (JS.toString id) w'
              = (Return (Res.Response 200 (Res.One n')), w')
            ∧ Res.id n' = id
            ∧ Res.status n' = Some "pending"
            ∧ Res.sent_at n' = Some None.
Proof.
  intros h w Hvalid Hpg Hredis Hmax. subst h w.
  destruct (run trace init) as [h w] eqn:Hrun. simpl in *.
  apply run_issued in Hrun as (Hseq & Hissued & _ & Hkeys). simpl in Hseq.
  specialize (Hkeys (map_Forall_empty _)).
  pose proof (insert_of_valid b (now e) row (db w) Hvalid Hmax Hkeys) as Hinsert.
  destruct Hvalid as (Hmissing & Hchannel & Hfits).
  assert (Pg.status row = Some "pending" ∧ Pg.created_at row = Some (now e)
          ∧ Pg.sent_at row = None) as (Hstatus & Hcreated & Hsent).
  { destruct (Pg.bind_params _ _ _ _ _) as [v | err]; [| done].
    by apply new_row_return in Hfits. }
  set (id := Pg.notifications_id_seq (db w) + 1) in *.
  exists (Res.Notification id (Pg.user_id row) (Pg.type row) (Pg.channel row)
            (Pg.subject row) (Pg.message row) (Pg.status row) (now e) None).
  simpl. split_and!.
  - rewrite post_notifications_paths, Hmissing, Hchannel, Hpg, Hinsert, Hredis.
    simpl. unfold to_json. simpl. by rewrite Hcreated.
  - done.
  - done.
  - done.
  - done.
  - intros Hin. eapply Forall_forall in Hissued; [| exact Hin]. unfold id in *. lia.
  - destruct (Pg.notifications (db w) !! id) as [n |] eqn:Hkey; [| done].
    apply Hkeys in Hkey. simpl in Hkey. unfold id in *. lia.
  - intros e' Hpg'.
    exists (Res.Notification id (Pg.user_id row) (Pg.type row) (Pg.channel row)
              (Pg.subject row) (Pg.message row) (Pg.status row) (now e)
              (Some (Pg.sent_at row))).
    split_and!; [| done | done | by rewrite Hsent].
    unfold get_notification. unfold_M. rewrite Hpg'. simpl.
    change (Some (JS.toString id)) with (Pg.prepareNumber (Some id)).
    rewrite select_by_id_number by (unfold in_int4, id, Pg.int4_max in *; lia).
    simpl. rewrite lookup_insert_eq. simpl.
    unfold to_json. simpl. by rewrite Hcreated.
Qed.

(** The second admission of a run. *)
Lemma create_pending_fresh_witness :
  let trace := [(all_up 5, POST_notifications (alert (JS.JNum 7) "email"))] in
  let row := Pg.Notification 8 "alert" "slack" None "hi" (Some "pending") (Some 6) None in
  valid (alert (JS.JStr "8") "slack") 6 row
  ∧ issued (run trace init).1 = [1]
  ∧ ∃ n,
      (post_notifications (all_up 6) (alert (JS.JStr "8") "slack")
         (run trace init).2).1
      = Return (Res.Response 200 (Res.One n))
      ∧ Res.status n = Some "pending"
      ∧ (Res.id n ∉ [1]).
Proof.
  intros trace row.
  assert (valid (alert (JS.JStr "8") "slack") 6 row) as Hvalid.
  { split_and!; reflexivity. }
  split_and!; [exact Hvalid | reflexivity |].
  destruct (create_pending_fresh trace (all_up 6) (alert (JS.JStr "8") "slack") row)
    as (n & Hpost & Hstatus & _ & _ & _ & Hfresh & _);
    [exact Hvalid | reflexivity | reflexivity | vm_compute; reflexivity |].
  exists n. rewrite Hpost. split_and!; [reflexivity | exact Hstatus | exact Hfresh].
Defined.

End Reachable.

(** ** The worker *)

Section Worker.

Implicit Types (e : env) (w : world) (q : Redis.queue) (n : Pg.notification).

Lemma parseInt_not_empty (element : string) (i : Z) :
  JS.parseInt element = Some i → String.eqb element "" = false.
Proof. by destruct element. Qed.

(** No error gets out of a turn of the worker, and the next turn
    follows. *)
Lemma processQueue_iteration_returns e w :
  (processQueue_iteration e w).1 = Return ().
Proof.
  rewrite processQueue_iteration_paths.
  destruct (redis_up e); [| done].
  destruct (Redis.brPop _) as [[element |] q]; [| done]. simpl.
  destruct (String.eqb element ""); [done |].
  destruct (pg_up e 0); [| done].
  destruct (Pg.select_by_id _ _) as [rows | err]; [| done].
  destruct (Pg.worker_columns <$> rows); [done |].
  destruct (pg_up e 1); [| done].
  by destruct (Pg.update_sent _ _ _).
Qed.

Lemma processQueue_cons e (es : list env) w :
  processQueue (e :: es) w = processQueue es (processQueue_iteration e w).2.
Proof.
  simpl. unfold mbind, M_bind.
  pose proof (processQueue_iteration_returns e w) as Hreturns.
  destruct (processQueue_iteration e w) as [o w']. simpl in *. by subst o.
Qed.

(** A turn of the worker on the [id] of a row that is there, with the
    SELECT answered: the sender is called with the columns of the row,
    and then the UPDATE marks the row as sent, if it is answered. *)
Lemma processQueue_iteration_found e w (element : string) q (i : Z) n :
  redis_up e = true →
  pg_up e 0 = true →
  Redis.brPop (notification_queue w) = (Some element, q) →
  JS.parseInt element = Some i →
  in_int4 i →
  Pg.notifications (db w) !! i = Some n →
  ∃ lines,
    processQueue_iteration e w =
    let calls := Pg.worker_columns (i, n) :: sender_calls w in
    if pg_up e 1 then
      (Return (),
       World (Pg.Database (alter (Pg.set_sent (now e)) i (Pg.notifications (db w)))
                (Pg.notifications_id_seq (db w)))
         q (lines ++ console w)%list calls)
    else
      (Return (),
       World (db w) q
         (error_processing connection_error :: lines ++ console w)%list calls).
Proof.
  intros Hredis Hpg Hpop Hparse Hrange Hrow.
  destruct (sendNotification_returns (Pg.worker_columns (i, n))
              (World (db w) q (console w) (sender_calls w))) as [lines Hsend].
  exists lines.
  rewrite processQueue_iteration_paths, Hredis, Hpop. simpl.
  rewrite (parseInt_not_empty _ _ Hparse), Hpg, Hparse.
  rewrite select_by_id_number, Hrow by done. simpl.
  rewrite Hsend. simpl.
  destruct (pg_up e 1); [| done].
  by rewrite update_sent_number.
Qed.

(** C9: when the [id] taken from the queue has no row, the turn ends
    without an error getting out, the database is as it was, the queue
    is what the pop left (the [id] is not put back), the sender is not
    called, and the loop goes on with the next turn; when the SELECT is
    answered and the [id] is in the range of the column, nothing is
    written on the console either. *)
Theorem absent_record_skipped e (es : list env) w (element : string) q (i : Z) :
  redis_up e = true →
  Redis.brPop (notification_queue w) = (Some element, q) →
  JS.parseInt element = Some i →
  Pg.notifications (db w) !! i = None →
  let w' := (processQueue_iteration e w).2 in
  (processQueue_iteration e w).1 = Return ()
  ∧ db w' = db w
  ∧ notification_queue w' = q
  ∧ sender_calls w' = sender_calls w
  ∧ (pg_up e 0 = true → in_int4 i → console w' = console w)
  ∧ processQueue (e :: es) w = processQueue es w'.
Proof.
  intros Hredis Hpop Hparse Hrow w'. subst w'.
  rewrite processQueue_cons.
  rewrite processQueue_iteration_paths, Hredis, Hpop. simpl.
  rewrite (parseInt_not_empty _ _ Hparse), Hparse.
  destruct (pg_up e 0); [| done].
  destruct (decide (in_int4 i)) as [Hrange | Hrange].
  - by rewrite select_by_id_number, Hrow.
  - unfold Pg.select_by_id.
    destruct (bind_int_number_out i Hrange) as [err ->].
    by split_and!.
Qed.

(** Two stale [id]s in the queue and an empty table: two turns drop
    them. *)
Lemma absent_record_skipped_witness :
  let w := World Pg.empty ["8"; "7"] [] [] in
  Redis.brPop (notification_queue w) = (Some "7", ["8"])
  ∧ JS.parseInt "7" = Some 7
  ∧ Pg.notifications (db w) !! 7 = None
  ∧ processQueue_iteration (all_up 3) w = (Return (), World Pg.empty ["8"] [] [])
  ∧ processQueue [all_up 3; all_up 4] w = (Return (), World Pg.empty [] [] []).
Proof.
  intros w.
  destruct (absent_record_skipped (all_up 3) [all_up 4] w "7" ["8"] 7)
    as (Hreturn & Hdb & Hqueue & Hcalls & Hconsole & Hloop);
    [reflexivity | reflexivity | reflexivity | reflexivity |].
  split_and!; [reflexivity | reflexivity | reflexivity | | ].
  - destruct (processQueue_iteration (all_up 3) w) as [o [d q c s]].
    simpl in *. rewrite Hreturn, Hdb, Hqueue, Hcalls, Hconsole; [reflexivity | reflexivity |].
    unfold in_int4, Pg.int4_max. lia.
  - rewrite Hloop. reflexivity.
Defined.

(** C1, as the claim has it, fails: the worker takes the [id] of a row
    that is already 'sent', calls the sender again and writes a new
    [sent_at]. *)
Lemma sent_record_sent_again :
  ¬ (∀ e w (element : string) q (i : Z) n,
       Redis.brPop (notification_queue w) = (Some element, q) →
       JS.parseInt element = Some i →
       Pg.notifications (db w) !! i = Some n →
       Pg.status n = Some "sent" ∨ Pg.status n = Some "failed" →
       let w' := (processQueue_iteration e w).2 in
       sender_calls w' = sender_calls w ∧ db w' = db w).
Proof.
  intros Hguard.
  destruct (Hguard (all_up 20) (waiting "email" "sent" (Some 9)) "1" [] 1
              (Pg.Notification 7 "alert" "email" None "hi" (Some "sent")
                 (Some 5) (Some 9)))
    as [Hcalls _]; [reflexivity | reflexivity | reflexivity | by left |].
  vm_compute in Hcalls. discriminate Hcalls.
Qed.

(** C1, amended: the worker has no guard on the status.  For every [id]
    taken from the queue whose row is there, whatever its status, 'sent'
    and 'failed' included, a turn with every call answered calls the
    sender with the columns of the row, and leaves the row with status
    'sent' and [sent_at] at the instant of the turn; the other rows are
    as they were. *)
Theorem existing_record_dispatched e w (element : string) q (i : Z) n :
  redis_up e = true →
  pg_up e 0 = true →
  pg_up e 1 = true →
  Redis.brPop (notification_queue w) = (Some element, q) →
  JS.parseInt element = Some i →
  in_int4 i →
  Pg.notifications (db w) !! i = Some n →
  let w' := (processQueue_iteration e w).2 in
  sender_calls w' = Pg.worker_columns (i, n) :: sender_calls w
  ∧ Pg.notifications (db w') !! i = Some (Pg.set_sent (now e) n)
  ∧ (∀ j, j ≠ i → Pg.notifications (db w') !! j = Pg.notifications (db w) !! j)
  ∧ notification_queue w' = q.
Proof.
  intros Hredis Hpg0 Hpg1 Hpop Hparse Hrange Hrow w'. subst w'.
  destruct (processQueue_iteration_found e w element q i n) as [lines ->];
    try done.
  rewrite Hpg1. simpl. split_and!; [done | | | done].
  - by rewrite lookup_alter_eq, Hrow.
  - intros j Hj. by rewrite lookup_alter_ne.
Qed.

Lemma existing_record_dispatched_witness :
  let w := waiting "email" "sent" (Some 9) in
  let n := Pg.Notification 7 "alert" "email" None "hi" (Some "sent") (Some 5) (Some 9) in
  let w' := (processQueue_iteration (all_up 20) w).2 in
  Redis.brPop (notification_queue w) = (Some "1", [])
  ∧ JS.parseInt "1" = Some 1
  ∧ Pg.notifications (db w) !! 1 = Some n
  ∧ sender_calls w' = [Pg.worker_columns (1, n)]
  ∧ Pg.notifications (db w') !! 1 = Some (Pg.set_sent 20 n).
Proof.
  intros w n w'.
  destruct (existing_record_dispatched (all_up 20) w "1" [] 1 n)
    as (Hcalls & Hrow & _);
    [reflexivity | reflexivity | reflexivity | reflexivity | reflexivity
    | unfold in_int4, Pg.int4_max; lia | reflexivity |].
  split_and!; [reflexivity | reflexivity | reflexivity | exact Hcalls | exact Hrow].
Defined.

(** C2, as the claim has it, fails: a 'pending' row whose channel is none
    of the three comes out of a turn of the worker with status 'sent'. *)
Lemma unknown_channel_marked_sent :
  ¬ (∀ e w (element : string) q (i : Z) n n',
       Redis.brPop (notification_queue w) = (Some element, q) →
       JS.parseInt element = Some i →
       Pg.notifications (db w) !! i = Some n →
       Pg.status n = Some "pending" →
       Pg.channel n ∉ channels →
       Pg.notifications (db (processQueue_iteration e w).2) !! i = Some n' →
       Pg.status n' ≠ Some "sent").
Proof.
  intros Hfailed.
  apply (Hfailed (all_up 20) (waiting "pager" "pending" None) "1" [] 1
           (Pg.Notification 7 "alert" "pager" None "hi" (Some "pending")
              (Some 5) None)
           (Pg.Notification 7 "alert" "pager" None "hi" (Some "sent")
              (Some 5) (Some 20)));
    try reflexivity.
  unfold channels. rewrite !elem_of_cons, elem_of_nil. intros [? | [? | [? | []]]]; discriminate.
Qed.

Lemma db_step_failed t (d d' : Pg.database) (j : Z) n' :
  db_step t d d' →
  Pg.notifications d' !! j = Some n' →
  Pg.status n' = Some "failed" →
  ∃ n, Pg.notifications d !! j = Some n ∧ Pg.status n = Some "failed".
Proof.
  destruct 1 as [d | d | d n id _ Hstatus _ | d i]; simpl; intros Hj Hfailed.
  - eauto.
  - eauto.
  - apply lookup_insert_Some in Hj as [[_ <-] | [_ Hj]]; [congruence | eauto].
  - apply lookup_alter_Some in Hj as [(_ & x & _ & ->) | (_ & Hj)];
      [done | eauto].
Qed.

(** C2, amended: the sender never fails, whatever the channel: for a
    channel that is none of the three it sends nothing and returns.  So
    for every [id] taken from the queue whose row is there, a turn with
    every call answered leaves the row with status 'sent', whatever its
    channel.  And nothing the service does gives a row the status
    'failed': a row that has it after a step had it before. *)
Theorem dispatched_record_marked_sent e w (element : string) q (i : Z) n :
  redis_up e = true →
  pg_up e 0 = true →
  pg_up e 1 = true →
  Redis.brPop (notification_queue w) = (Some element, q) →
  JS.parseInt element = Some i →
  in_int4 i →
  Pg.notifications (db w) !! i = Some n →
  (∀ notif w0, (sendNotification notif w0).1 = Return ())
  ∧ (∀ notif w0, Pg.channel notif.2 ∉ channels →
       console (sendNotification notif w0).2 = console w0)
  ∧ Pg.status <$> Pg.notifications (db (processQueue_iteration e w).2) !! i
    = Some (Some "sent")
  ∧ (∀ e0 (ev : event) w0 j n',
       Pg.notifications (db (step e0 ev w0)) !! j = Some n' →
       Pg.status n' = Some "failed" →
       ∃ n0, Pg.notifications (db w0) !! j = Some n0
             ∧ Pg.status n0 = Some "failed").
Proof.
  intros Hredis Hpg0 Hpg1 Hpop Hparse Hrange Hrow. split_and!.
  - intros notif w0.
    by destruct (sendNotification_returns notif w0) as [lines ->].
  - intros notif w0 Hchannel. unfold sendNotification. unfold_M. simpl.
    unfold channels in Hchannel.
    rewrite !not_elem_of_cons in Hchannel. destruct Hchannel as (? & ? & ? & _).
    by rewrite !(proj2 (String.eqb_neq _ _)).
  - destruct (processQueue_iteration_found e w element q i n) as [lines ->];
      try done.
    rewrite Hpg1. simpl. by rewrite lookup_alter_eq, Hrow.
  - intros e0 ev w0 j n'. apply db_step_failed with (now e0), step_db_step.
Qed.

Lemma dispatched_record_marked_sent_witness :
  let w := waiting "pager" "pending" None in
  let n := Pg.Notification 7 "alert" "pager" None "hi" (Some "pending") (Some 5) None in
  Redis.brPop (notification_queue w) = (Some "1", [])
  ∧ JS.parseInt "1" = Some 1
  ∧ Pg.notifications (db w) !! 1 = Some n
  ∧ Pg.status <$> Pg.notifications (db (processQueue_iteration (all_up 20) w).2) !! 1
    = Some (Some "sent").
Proof.
  intros w n.
  destruct (dispatched_record_marked_sent (all_up 20) w "1" [] 1 n)
    as (_ & _ & Hstatus & _);
    [reflexivity | reflexivity | reflexivity | reflexivity | reflexivity
    | unfold in_int4, Pg.int4_max; lia | reflexivity |].
  split_and!; [reflexivity | reflexivity | reflexivity | exact Hstatus].
Defined.

End Worker.

(** * More about the admission handler *)

Section AdmissionMore.

Implicit Types (e : env) (w : world) (b : Req.body).

(** The row of an INSERT that has returned can be answered: its
    [created_at] is there. *)
Lemma to_json_inserted (with_sent_at : bool) b (t : Z) (d d' : Pg.database)
    (r : Pg.row) :
  insert_of b t d = (Return r, d') →
  to_json with_sent_at r
  = Return (Res.Notification r.1 (Pg.user_id r.2) (Pg.type r.2) (Pg.channel r.2)
              (Pg.subject r.2) (Pg.message r.2) (Pg.status r.2) t
              (if with_sent_at then Some (Pg.sent_at r.2) else None)).
Proof.
  intros Hinsert. apply insert_return in Hinsert as (_ & _ & _ & _ & _ & _ & Hcreated & _).
  unfold to_json. by rewrite Hcreated.
Qed.

(** What the admission handler answers is 400, 500 or 200.  On 400 the
    world is as it was.  On 500 the queue is as it was and one line is
    written on the console.  Only on 200 does the queue change: the [id]
    answered is pushed, and its row is new in the table. *)
Theorem post_notifications_answers e b w (r : Res.response) w' :
  post_notifications e b w = (Return r, w') →
  Res.code r = 400 ∧ w' = w
  ∨ Res.code r = 500
    ∧ notification_queue w' = notification_queue w
    ∧ sender_calls w' = sender_calls w
    ∧ (∃ err, Res.body r = Res.Error err
              ∧ console w' = error_creating err :: console w)
  ∨ Res.code r = 200
    ∧ ∃ n row, Res.body r = Res.One n
        ∧ notification_queue w' = JS.toString (Res.id n) :: notification_queue w
        ∧ Pg.notifications (db w) !! Res.id n = None
        ∧ db w' = Pg.Database (<[Res.id n := row]> (Pg.notifications (db w)))
                    (Res.id n)
        ∧ console w' = console w
        ∧ sender_calls w' = sender_calls w.
Proof.
  rewrite post_notifications_paths.
  destruct (missing_required b); [intros [= <- <-]; by left |].
  destruct (negb _); [intros [= <- <-]; by left |].
  destruct (pg_up e 0); [| intros [= <- <-]; right; left; eauto 10].
  destruct (insert_of b (now e) (db w)) as [[r' | err] d] eqn:Hinsert;
    [| intros [= <- <-]; right; left; eauto 10].
  destruct (redis_up e); [| intros [= <- <-]; right; left; eauto 10].
  simpl. rewrite (to_json_inserted false _ _ _ _ _ Hinsert).
  apply insert_return in Hinsert as (_ & _ & Hfree & -> & _).
  intros [= <- <-]. right. right. split; [done |].
  eexists _, r'.2. by split_and!.
Qed.

Lemma post_notifications_answers_witness :
  let b := alert (JS.JNum 7) "email" in
  let r := Res.Response 200 (Res.One
             (Res.Notification 1 7 "alert" "email" None "hi" (Some "pending") 5 None)) in
  ∃ w', post_notifications (all_up 5) b init = (Return r, w')
        ∧ notification_queue w' = ["1"]
        ∧ Pg.notifications (db init) !! 1 = None.
Proof.
  intros b r. eexists. split; [reflexivity |].
  destruct (post_notifications_answers (all_up 5) b init r _ eq_refl)
    as [[Hcode _] | [[Hcode _] | (_ & n & row & Hbody & Hqueue & Hfree & _)]];
    [discriminate Hcode | discriminate Hcode |].
  injection Hbody as <-. split; [exact Hqueue | exact Hfree].
Defined.

(** A body that passes the two checks of the handler but whose values do
    not fit the columns (a [user_id] that is no integer, a [type] or a
    [subject] too long) is answered 500, and leaves no row in the table
    and nothing in the queue. *)
Theorem unfit_body_answered_500 e b w :
  missing_required b = false →
  JS.includes channels (Req.channel b) = true →
  (∀ row, ¬ valid b (now e) row) →
  let w' := (post_notifications e b w).2 in
  (∃ err, (post_notifications e b w).1 = Return (Res.Response 500 (Res.Error err)))
  ∧ Pg.notifications (db w') = Pg.notifications (db w)
  ∧ notification_queue w' = notification_queue w.
Proof.
  intros Hmissing Hchannel Hunfit w'. subst w'.
  rewrite post_notifications_paths, Hmissing, Hchannel. simpl.
  destruct (pg_up e 0); [| eauto].
  destruct (insert_of b (now e) (db w)) as [[r | err] d] eqn:Hinsert.
  - apply insert_return in Hinsert as (_ & _ & _ & _ & (v & Hbind & Hrow) & _).
    destruct (Hunfit r.2). split_and!; [done | done |].
    by rewrite Hbind.
  - apply insert_throw in Hinsert as [Htable _]. eauto.
Qed.

Lemma unfit_body_answered_500_witness :
  let b := alert (JS.JStr "u1") "email" in
  missing_required b = false
  ∧ (∃ err, (post_notifications (all_up 5) b init).1
            = Return (Res.Response 500 (Res.Error err)))
  ∧ Pg.notifications (db (post_notifications (all_up 5) b init).2) = ∅
  ∧ notification_queue (post_notifications (all_up 5) b init).2 = [].
Proof.
  intros b.
  destruct (unfit_body_answered_500 (all_up 5) b init) as (Hanswer & Htable & Hqueue);
    [reflexivity | reflexivity | |].
  - intros row (_ & _ & Hfits). vm_compute in Hfits. discriminate Hfits.
  - split_and!; [reflexivity | exact Hanswer | exact Htable | exact Hqueue].
Defined.

Lemma bind_text_return (p : Pg.param) (v : option string) :
  Pg.bind_text p = Return v → v = p.
Proof.
  destruct p as [s |]; simpl; [| by intros [= <-]].
  unfold Pg.text_in. destruct (forallb _ _); simpl; [| done]. by intros [= <-].
Qed.

(** Binding the five parameters: [$1] is read as an integer, the texts
    stay as they are but for the length of their columns. *)
Lemma bind_params_return (p1 p2 p3 p4 p5 : Pg.param) (v : Pg.bound) :
  Pg.bind_params p1 p2 p3 p4 p5 = Return v →
  ∃ u t c s,
    Pg.bind_int Pg.int4_max p1 = Return u
    ∧ Pg.varchar_opt 50 p2 = Return t
    ∧ Pg.varchar_opt 50 p3 = Return c
    ∧ Pg.varchar_opt 255 p4 = Return s
    ∧ v = (u, t, c, s, p5).
Proof.
  unfold Pg.bind_params.
  destruct (Pg.bind_int _ p1) as [u |]; [| done].
  destruct (Pg.bind_text p2) as [t |] eqn:H2; [| done].
  destruct (Pg.bind_text p3) as [c |] eqn:H3; [| done].
  destruct (Pg.bind_text p4) as [s |] eqn:H4; [| done].
  destruct (Pg.bind_text p5) as [m |] eqn:H5; [| done].
  apply bind_text_return in H2 as ->, H3 as ->, H4 as ->, H5 as ->.
  simpl.
  destruct (Pg.varchar_opt 50 p2) as [t |]; [| done]. simpl.
  destruct (Pg.varchar_opt 50 p3) as [c |]; [| done]. simpl.
  destruct (Pg.varchar_opt 255 p4) as [s |]; [| done]. simpl.
  intros [= <-]. eauto 10.
Qed.

(** The columns of the row made of bound values. *)
Lemma new_row_fields (t : Z) (u : option Z) (ty c s m : option string)
    (row : Pg.notification) :
  Pg.new_row t (u, ty, c, s, m) = Return row →
  u = Some (Pg.user_id row)
  ∧ ty = Some (Pg.type row)
  ∧ c = Some (Pg.channel row)
  ∧ s = Pg.subject row
  ∧ m = Some (Pg.message row)
  ∧ Pg.status row = Some "pending"
  ∧ Pg.created_at row = Some t
  ∧ Pg.sent_at row = None.
Proof.
  unfold Pg.new_row.
  destruct u as [u |]; [| done].
  destruct ty as [ty |]; [| done].
  destruct c as [c |]; [| done].
  destruct m as [m |]; [| done]. simpl.
  intros [= <-]. simpl. by split_and!.
Qed.

(** What the row of a valid body is made of. *)
Lemma valid_fields b (t : Z) (row : Pg.notification) :
  valid b t row →
  Pg.bind_int Pg.int4_max (Pg.prepareValue (Req.user_id b))
  = Return (Some (Pg.user_id row))
  ∧ Pg.varchar_opt 50 (Pg.prepareValue (Req.type b)) = Return (Some (Pg.type row))
  ∧ Pg.varchar_opt 50 (Pg.prepareValue (Req.channel b))
    = Return (Some (Pg.channel row))
  ∧ Pg.varchar_opt 255 (Pg.prepareValue (JS.or_null (Req.subject b)))
    = Return (Pg.subject row)
  ∧ Pg.prepareValue (Req.message b) = Some (Pg.message row)
  ∧ Pg.status row = Some "pending"
  ∧ Pg.created_at row = Some t
  ∧ Pg.sent_at row = None.
Proof.
  intros (_ & _ & Hfits).
  destruct (Pg.bind_params _ _ _ _ _) as [v |] eqn:Hbind; [| done].
  simpl in Hfits.
  apply bind_params_return in Hbind as (u & ty & c & s & Hu & Hty & Hc & Hs & ->).
  apply new_row_fields in Hfits as (-> & -> & -> & -> & ? & ? & ? & ?).
  by split_and!.
Qed.

Lemma varchar_channel (c : string) : c ∈ channels → Pg.varchar 50 c = Some c.
Proof.
  unfold channels. rewrite !elem_of_cons, elem_of_nil.
  by intros [-> | [-> | [-> | []]]].
Qed.

Lemma includes_channels (v : JS.value) :
  JS.includes channels v = true → ∃ c, v = JS.JStr c ∧ c ∈ channels.
Proof.
  destruct v as [| | | | c |]; try done. unfold JS.includes.
  intros Hin. exists c. split; [done |].
  apply existsb_exists in Hin as (c' & Hin & Heq).
  apply String.eqb_eq in Heq as ->. by apply list_elem_of_In.
Qed.

(** What the row of a valid body holds: the channel of the body, one of
    the three; NULL for a [subject] that is falsy (absent, null, empty,
    0 or false); the [message] as it is when it is a string; the
    [user_id] as it is when it is a number, which then is a nonzero
    integer of the column; and the defaults 'pending', [now] and NULL. *)
Theorem valid_row_fields b (t : Z) (row : Pg.notification) :
  valid b t row →
  Req.channel b = JS.JStr (Pg.channel row)
  ∧ Pg.channel row ∈ channels
  ∧ (JS.truthy (Req.subject b) = false → Pg.subject row = None)
  ∧ (∀ s, Req.message b = JS.JStr s → Pg.message row = s ∧ s ≠ "")
  ∧ (∀ i, Req.user_id b = JS.JNum i → Pg.user_id row = i ∧ in_int4 i ∧ i ≠ 0)
  ∧ Pg.status row = Some "pending"
  ∧ Pg.created_at row = Some t
  ∧ Pg.sent_at row = None.
Proof.
  intros Hvalid.
  pose proof (valid_fields b t row Hvalid)
    as (Hu & _ & Hchan & Hsubject & Hmess & ? & ? & ?).
  destruct Hvalid as (Hmissing & Hchannel & _).
  apply includes_channels in Hchannel as (c & Hc & Hin).
  unfold missing_required in Hmissing.
  apply orb_false_elim in Hmissing as [Hmissing Hmessage].
  apply orb_false_elim in Hmissing as [Hmissing _].
  apply orb_false_elim in Hmissing as [Huser _].
  apply negb_false_iff in Huser, Hmessage.
  rewrite Hc in Hchan. simpl in Hchan. unfold Pg.varchar_in in Hchan.
  rewrite (varchar_channel c Hin) in Hchan. injection Hchan as Hchan.
  split_and!; try done.
  - by rewrite Hc, Hchan.
  - by rewrite <- Hchan.
  - intros Hfalsy. unfold JS.or_null in Hsubject. rewrite Hfalsy in Hsubject.
    simpl in Hsubject. by injection Hsubject as <-.
  - intros s Hs. rewrite Hs in Hmess, Hmessage. simpl in *.
    injection Hmess as <-. split; [done |].
    intros ->. by rewrite String.eqb_refl in Hmessage.
  - intros i Hi. rewrite Hi in Hu, Huser. simpl in Hu, Huser.
    rewrite int_in_toString in Hu by apply int4_max_safe.
    destruct (decide (in_int4 i)) as [Hrange | Hrange].
    + rewrite in_range in Hu by done. simpl in Hu. injection Hu as <-.
      apply negb_true_iff, Z.eqb_neq in Huser. by split_and!.
    + by rewrite not_in_range in Hu.
Qed.

Lemma valid_row_fields_witness :
  let b := Req.Body (JS.JNum 7) (JS.JStr "alert") (JS.JStr "slack") (JS.JStr "")
             (JS.JStr "hi") in
  let row := Pg.Notification 7 "alert" "slack" None "hi" (Some "pending") (Some 5) None in
  valid b 5 row ∧ Pg.subject row = None ∧ Pg.channel row ∈ channels.
Proof.
  intros b row.
  assert (valid b 5 row) as Hvalid by (split_and!; reflexivity).
  destruct (valid_row_fields b 5 row Hvalid) as (_ & Hchannel & Hsubject & _).
  split_and!; [exact Hvalid | apply Hsubject; reflexivity | exact Hchannel].
Defined.

End AdmissionMore.

(** * What a step does to the world *)

Section Cases.

Implicit Types (e : env) (w : world) (b : Req.body).

(** The SELECT of the worker gives a row only for a number that is in the
    range of the column and is the key of that row. *)
Lemma select_by_id_found (o : option Z) (d : Pg.database) (r : Pg.row)
    (rows : list Pg.row) :
  Pg.select_by_id (Pg.prepareNumber o) d = Return (r :: rows) →
  ∃ i n, o = Some i ∧ in_int4 i ∧ Pg.notifications d !! i = Some n
         ∧ r = (i, n) ∧ rows = [].
Proof.
  destruct o as [i |]; [| done].
  destruct (decide (in_int4 i)) as [Hrange | Hrange].
  - rewrite select_by_id_number by done.
    destruct (Pg.notifications d !! i) as [n |] eqn:Hrow; [| done].
    simpl. intros [= <- <-]. by exists i, n.
  - unfold Pg.select_by_id.
    by destruct (bind_int_number_out i Hrange) as [err ->].
Qed.

Lemma brPop_None (q q' : Redis.queue) : Redis.brPop q = (None, q') → q' = q ∧ q = [].
Proof.
  unfold Redis.brPop. destruct (reverse q) as [| x r] eqn:Hq; [| done].
  intros [= <-]. split; [done |].
  by rewrite <- (reverse_involutive q), Hq.
Qed.

Lemma brPop_Some (q q' : Redis.queue) (x : string) :
  Redis.brPop q = (Some x, q') → q = (q' ++ [x])%list.
Proof.
  unfold Redis.brPop. destruct (reverse q) as [| y r] eqn:Hq; [done |].
  intros [= <- <-].
  by rewrite <- (reverse_involutive q), Hq, reverse_cons.
Qed.

(** A turn of the worker: either the database and the record of the sender
    are as they were, and the queue is as it was or has lost its oldest
    element; or the oldest element read as the key of a row, the sender was
    called with that row, and the row is marked as sent unless the UPDATE
    was not answered. *)
Lemma processQueue_iteration_cases e w :
  let w' := (processQueue_iteration e w).2 in
  (db w' = db w ∧ sender_calls w' = sender_calls w
   ∧ (notification_queue w' = notification_queue w
      ∨ ∃ element, Redis.brPop (notification_queue w)
                   = (Some element, notification_queue w')))
  ∨ (∃ element i n,
       Redis.brPop (notification_queue w) = (Some element, notification_queue w')
       ∧ JS.parseInt element = Some i ∧ in_int4 i
       ∧ Pg.notifications (db w) !! i = Some n
       ∧ sender_calls w' = Pg.worker_columns (i, n) :: sender_calls w
       ∧ (pg_up e 1 = false ∧ db w' = db w
          ∨ pg_up e 1 = true
            ∧ db w' = Pg.Database (alter (Pg.set_sent (now e)) i
                                     (Pg.notifications (db w)))
                        (Pg.notifications_id_seq (db w)))).
Proof.
  intros w'. subst w'. rewrite processQueue_iteration_paths.
  destruct (redis_up e); [| left; eauto].
  destruct (Redis.brPop _) as [[element |] q] eqn:Hpop.
  2: { apply brPop_None in Hpop as [-> _]. left. eauto. }
  simpl. destruct (String.eqb element ""); [left; eauto 10 |].
  destruct (pg_up e 0); [| left; eauto 10].
  destruct (Pg.select_by_id _ _) as [[| r rows] | err] eqn:Hselect;
    [left; eauto 10 | | left; eauto 10].
  apply select_by_id_found in Hselect as (i & n & Hparse & Hrange & Hrow & -> & ->).
  simpl.
  destruct (sendNotification_returns (Pg.worker_columns (i, n))
              (World (db w) q (console w) (sender_calls w))) as [lines Hsend].
  rewrite Hsend. simpl. right. exists element, i, n.
  destruct (pg_up e 1).
  - rewrite Hparse, update_sent_number by done. simpl. split_and!; eauto.
  - simpl. split_and!; eauto.
Qed.

(** An admission: either the table and the queue are as they were, and the
    sequence has moved by one at most; or the row of a valid body is new
    under the next value of the sequence, whose text is pushed unless
    Redis does not answer. *)
Lemma post_notifications_cases e b w :
  let w' := (post_notifications e b w).2 in
  sender_calls w' = sender_calls w
  ∧ (Pg.notifications (db w') = Pg.notifications (db w)
     ∧ Pg.notifications_id_seq (db w) ≤ Pg.notifications_id_seq (db w')
       ≤ Pg.notifications_id_seq (db w) + 1
     ∧ notification_queue w' = notification_queue w
     ∨ ∃ row, let id := Pg.notifications_id_seq (db w) + 1 in
         valid b (now e) row
         ∧ id ≤ Pg.int4_max
         ∧ Pg.notifications (db w) !! id = None
         ∧ db w' = Pg.Database (<[id := row]> (Pg.notifications (db w))) id
         ∧ (redis_up e = true
            ∧ notification_queue w' = JS.toString id :: notification_queue w
            ∨ redis_up e = false
              ∧ notification_queue w' = notification_queue w)).
Proof.
  intros w'. subst w'. rewrite post_notifications_paths.
  destruct (missing_required b) eqn:Hmissing; [split; [done |]; left; split_and!; [done | simpl; lia | simpl; lia | done] |].
  destruct (JS.includes channels (Req.channel b)) eqn:Hchannel; simpl;
    [| split; [done |]; left; split_and!; [done | simpl; lia | simpl; lia | done]].
  destruct (pg_up e 0); [| split; [done |]; left; split_and!; [done | simpl; lia | simpl; lia | done]].
  destruct (insert_of b (now e) (db w)) as [[r | err] d] eqn:Hinsert.
  - rewrite (to_json_inserted false _ _ _ _ _ Hinsert).
    apply insert_return in Hinsert
      as (Hid & Hmax & Hfree & -> & (v & Hbind & Hrow) & _).
    rewrite Hid in *.
    assert (valid b (now e) r.2) as Hvalid.
    { split_and!; [done | done |]. by rewrite Hbind. }
    destruct (redis_up e); simpl; (split; [done |]); right; exists r.2;
      split_and!; eauto.
  - apply insert_throw in Hinsert as [Htable Hseq]. simpl.
    split; [done |]. left. split_and!; [done | lia | lia | done].
Qed.

End Cases.

(** * Invariants of the worlds the service gets to *)

Section Invariants.

Implicit Types (e : env) (w : world) (b : Req.body) (d : Pg.database).

(** A failed INSERT leaves the database as it was, or uses up the next
    value of the sequence, which then is in the range of the column. *)
Lemma insert_of_throw b (t : Z) d (err : string) d' :
  insert_of b t d = (Throw err, d') →
  d' = d
  ∨ d' = Pg.Database (Pg.notifications d) (Pg.notifications_id_seq d + 1)
    ∧ Pg.notifications_id_seq d + 1 ≤ Pg.int4_max.
Proof.
  unfold insert_of, Pg.insert.
  destruct (Pg.bind_params _ _ _ _ _) as [v |]; [| intros [= _ <-]; by left].
  destruct (Pg.int4_max <? _) eqn:Hmax; [intros [= _ <-]; by left |].
  apply Z.ltb_ge in Hmax.
  destruct (Pg.new_row t v); [| intros [= _ <-]; by right].
  destruct (Pg.notifications d !! _); [| done].
  intros [= _ <-]. by right.
Qed.

Lemma valid_row_ok b (t : Z) (row : Pg.notification) :
  valid b t row →
  Pg.channel row ∈ channels ∧ Pg.status row = Some "pending"
  ∧ Pg.created_at row = Some t.
Proof.
  intros Hvalid.
  pose proof (valid_fields b t row Hvalid) as (_ & _ & Hchan & _ & _ & ? & ? & _).
  destruct Hvalid as (_ & Hchannel & _).
  apply includes_channels in Hchannel as (c & Hc & Hin).
  rewrite Hc in Hchan. simpl in Hchan. unfold Pg.varchar_in in Hchan.
  rewrite (varchar_channel c Hin) in Hchan. injection Hchan as <-.
  by split_and!.
Qed.

Lemma row_ok_seq d d' (i : Z) (n : Pg.notification) :
  Pg.notifications_id_seq d ≤ Pg.notifications_id_seq d' →
  row_ok d i n → row_ok d' i n.
Proof. unfold row_ok. intros Hseq (? & ? & ? & ?). split_and!; [lia | lia | done..]. Qed.

Lemma post_notifications_seq_max e b w :
  Pg.notifications_id_seq (db w) ≤ Pg.int4_max →
  Pg.notifications_id_seq (db (post_notifications e b w).2) ≤ Pg.int4_max.
Proof.
  intros Hmax. rewrite post_notifications_paths.
  destruct (missing_required b); [done |].
  destruct (negb _); [done |].
  destruct (pg_up e 0); [| done].
  destruct (insert_of b (now e) (db w)) as [[r | err] d] eqn:Hinsert.
  - apply insert_return in Hinsert as (_ & Hid & _ & -> & _).
    destruct (redis_up e); [| done]. simpl. by destruct (to_json false r).
  - by apply insert_of_throw in Hinsert as [-> | [-> ?]].
Qed.

Lemma pending_has_row d (i : Z) : pending d i → is_Some (Pg.notifications d !! i).
Proof. intros (n & -> & _). eauto. Qed.

(** An admission keeps the rows as the service makes them, and the queue
    the texts of keys of 'pending' rows, none twice. *)
Lemma post_notifications_ok e b w (ids : list Z) :
  db_ok (db w) → queue_of w ids →
  let w' := (post_notifications e b w).2 in
  db_ok (db w')
  ∧ (queue_of w' ids
     ∨ queue_of w' (Pg.notifications_id_seq (db w) + 1 :: ids)).
Proof.
  intros [Hseq Hrows] (Hqueue & Hnodup & Hpending) w'. subst w'.
  pose proof (post_notifications_seq_max e b w (proj2 Hseq)) as Hmax.
  pose proof (post_notifications_cases e b w) as Hcases. simpl in Hcases.
  remember (post_notifications e b w).2 as w' eqn:Hw'. clear Hw'.
  destruct Hcases
    as [_ [(Htable & Hseq' & Hq) | (row & Hvalid & _ & Hfree & Hdb & Hq)]].
  - split.
    + split; [lia |]. rewrite Htable.
      eapply map_Forall_impl; [exact Hrows |]. intros i n. apply row_ok_seq. lia.
    + left. split_and!; [by rewrite Hq | done |].
      eapply Forall_impl; [exact Hpending |]. intros i. unfold pending.
      by rewrite Htable.
  - apply valid_row_ok in Hvalid as (Hchannel & Hstatus & Hcreated).
    set (id := Pg.notifications_id_seq (db w) + 1) in *.
    assert (Forall (pending (db w')) ids) as Hpending'.
    { rewrite Forall_forall in Hpending |- *. intros i Hi.
      destruct (Hpending i Hi) as (n & Hrow & Hn). exists n. split; [| done].
      rewrite Hdb. simpl. rewrite lookup_insert_ne; [done |]. congruence. }
    rewrite Hdb in Hmax. simpl in Hmax.
    split.
    + rewrite Hdb. split; [simpl; lia |]. simpl.
      apply map_Forall_insert_2.
      * unfold row_ok. simpl. rewrite Hcreated. split_and!; eauto; lia.
      * eapply map_Forall_impl; [exact Hrows |]. intros i n.
        apply row_ok_seq. simpl. lia.
    + destruct Hq as [[_ Hq] | [_ Hq]].
      * right. split_and!.
        -- by rewrite Hq, Hqueue.
        -- apply NoDup_cons. split; [| done]. intros Hin.
           rewrite Forall_forall in Hpending.
           apply Hpending, pending_has_row in Hin. rewrite Hfree in Hin.
           by destruct Hin.
        -- apply Forall_cons. split; [| done]. exists row.
           rewrite Hdb. simpl. by rewrite lookup_insert_eq.
      * left. split_and!; [by rewrite Hq | done | done].
Qed.

Lemma set_sent_row_ok d (t i : Z) (n : Pg.notification) :
  row_ok d i n → row_ok d i (Pg.set_sent t n).
Proof.
  unfold row_ok. simpl. intros (Hkey & Hchannel & _ & Hcreated).
  split_and!; [lia | lia | done | by right | done].
Qed.

(** So does a turn of the worker; the queue is as it was or has lost its
    oldest element. *)
Lemma processQueue_iteration_ok e w (ids : list Z) :
  db_ok (db w) → queue_of w ids →
  let w' := (processQueue_iteration e w).2 in
  db_ok (db w') ∧ (queue_of w' ids ∨ queue_of w' (removelast ids)).
Proof.
  intros [Hseq Hrows] (Hqueue & Hnodup & Hpending) w'. subst w'.
  pose proof (processQueue_iteration_cases e w) as Hcases. simpl in Hcases.
  remember (processQueue_iteration e w).2 as w' eqn:Hw'. clear Hw'.
  assert (∀ element, Redis.brPop (notification_queue w)
                     = (Some element, notification_queue w') →
            ∃ i, ids = (removelast ids ++ [i])%list
                 ∧ element = JS.toString i
                 ∧ in_int4 i
                 ∧ notification_queue w' = JS.toString <$> removelast ids
                 ∧ NoDup (removelast ids) ∧ (i ∉ removelast ids)
                 ∧ Forall (pending (db w)) (removelast ids)) as Hpopped.
  { intros element Hpop. apply brPop_Some in Hpop. rewrite Hqueue in Hpop.
    destruct (exists_last (l := ids)) as (ids' & i & ->).
    { intros ->. by destruct (notification_queue w'). }
    rewrite removelast_last. rewrite fmap_app in Hpop. simpl in Hpop.
    apply app_inj_tail in Hpop as [Hq <-].
    apply NoDup_app in Hnodup as (Hnodup & Hnotin & _).
    apply Forall_app in Hpending as [Hpending Hi].
    apply Forall_singleton in Hi as (n & Hrow & _).
    destruct (Hrows i n Hrow) as (Hkey & _).
    exists i. split_and!; try done.
    - unfold in_int4, Pg.int4_max in *. lia.
    - intros Hin. apply (Hnotin i Hin). by apply list_elem_of_singleton. }
  destruct Hcases
    as [(Hdb & _ & [Hq | [element Hpop]])
       | (element & i & n & Hpop & Hparse & _ & Hrow & _ & Hdb)].
  - rewrite Hdb. split; [done |]. left. by unfold queue_of; rewrite Hq, Hdb.
  - rewrite Hdb. split; [done |]. right.
    destruct (Hpopped element Hpop) as (i & _ & _ & _ & Hq & ? & _ & ?).
    by unfold queue_of; rewrite Hdb.
  - destruct (Hpopped element Hpop)
      as (i' & _ & -> & Hrange & Hq & Hnodup' & Hnotin & Hpending').
    rewrite parseInt_toString in Hparse by (by apply in_int4_safe).
    injection Hparse as ->.
    destruct Hdb as [[_ Hdb] | [_ Hdb]]; rewrite Hdb.
    + split; [done |]. right. by unfold queue_of; rewrite Hdb.
    + split.
      * split; [done |]. simpl. intros j m Hj.
        apply lookup_alter_Some in Hj as [(<- & x & Hx & ->) | (_ & Hj)].
        -- apply set_sent_row_ok. by apply Hrows in Hx.
        -- by apply Hrows in Hj.
      * right. split_and!; [done | done |].
        rewrite Forall_forall in Hpending' |- *. intros j Hj.
        destruct (Hpending' j Hj) as (m & Hm & Hstatus). exists m.
        split; [| done]. rewrite Hdb. simpl.
        rewrite lookup_alter_ne; [done |]. intros ->. done.
Qed.

(** Every world the service gets to has rows as the service makes them and
    a queue of texts of keys of 'pending' rows, none twice. *)
Lemma reachable_ok w : reachable w → db_ok (db w) ∧ ∃ ids, queue_of w ids.
Proof.
  induction 1 as [| e ev w _ (Hdb & ids & Hqueue)].
  - split.
    + split; [done |]. apply map_Forall_empty.
    + exists []. split_and!; [done | constructor | constructor].
  - unfold step, handle. destruct ev as [b | id | u l o | |].
    + destruct (post_notifications_ok e b w ids Hdb Hqueue) as [Hdb' Hqueue'].
      unfold fmap, M_fmap.
      destruct (post_notifications e b w) as [[r | err] w']; simpl in *;
        (split; [done |]); destruct Hqueue'; eauto.
    + destruct (get_notification_reads e id w) as (Hsame & Hq & _).
      unfold fmap, M_fmap.
      destruct (get_notification e id w) as [[r | err] w']; simpl in *;
        rewrite Hsame; (split; [done |]); exists ids; by unfold queue_of; rewrite Hq, Hsame.
    + destruct (get_notifications_reads e u l o w) as (Hsame & Hq & _).
      unfold fmap, M_fmap.
      destruct (get_notifications e u l o w) as [[r | err] w']; simpl in *;
        rewrite Hsame; (split; [done |]); exists ids; by unfold queue_of; rewrite Hq, Hsame.
    + eauto.
    + destruct (processQueue_iteration_ok e w ids Hdb Hqueue) as [Hdb' Hqueue'].
      unfold mbind, M_bind.
      destruct (processQueue_iteration e w) as [[[] | err] w']; simpl in *;
        (split; [done |]); destruct Hqueue'; eauto.
Qed.

End Invariants.

(** * Rows over time *)

Section Rows.

Implicit Types (e : env) (w : world) (d : Pg.database) (n : Pg.notification).

Lemma db_step_row (t : Z) d d' (i : Z) n :
  db_step t d d' →
  Pg.notifications d !! i = Some n →
  ∃ n', Pg.notifications d' !! i = Some n' ∧ (n' = n ∨ n' = Pg.set_sent t n).
Proof.
  destruct 1 as [d | d | d m id Hfree _ _ | d j]; simpl; intros Hrow.
  - eauto.
  - eauto.
  - exists n. split; [| by left].
    rewrite lookup_insert_ne; [done |]. congruence.
  - destruct (decide (j = i)) as [-> | Hne].
    + exists (Pg.set_sent t n). split; [| by right].
      by rewrite lookup_alter_eq, Hrow.
    + exists n. split; [| by left]. by rewrite lookup_alter_ne.
Qed.

Lemma run_cons (e : env) (ev : event) (trace : list (env * event)) w :
  (run ((e, ev) :: trace) w).2 = (run trace (step e ev w)).2.
Proof.
  simpl. unfold step. destruct (handle e ev w) as [o w1]. simpl.
  by destruct (run trace w1).
Qed.

(** Over any run, from any world, a row is never deleted, and it is
    either as it was or marked as sent at some instant: its [user_id],
    [type], [channel], [subject], [message] and [created_at] never
    change, and its status never leaves 'sent'. *)
Theorem rows_persist (trace : list (env * event)) w (i : Z) n :
  Pg.notifications (db w) !! i = Some n →
  ∃ n', Pg.notifications (db (run trace w).2) !! i = Some n'
        ∧ (n' = n ∨ ∃ t, n' = Pg.set_sent t n).
Proof.
  revert w n. induction trace as [| [e ev] trace IH]; intros w n Hrow.
  - exists n. split; [done | by left].
  - rewrite run_cons.
    destruct (db_step_row (now e) _ _ i n (step_db_step e ev w) Hrow)
      as (n1 & Hrow1 & Hn1).
    destruct (IH _ _ Hrow1) as (n' & Hrow' & Hn').
    exists n'. split; [done |].
    destruct Hn1 as [-> | ->]; [done |].
    destruct Hn' as [-> | [t ->]]; right; eauto.
Qed.

Lemma rows_persist_witness :
  let w := (run [(all_up 5, POST_notifications (alert (JS.JNum 7) "email"))] init).2 in
  let n := Pg.Notification 7 "alert" "email" None "hi" (Some "pending") (Some 5) None in
  let trace := [(all_up 6, GET_notifications None None None); (all_up 9, Worker)] in
  Pg.notifications (db w) !! 1 = Some n
  ∧ ∃ n', Pg.notifications (db (run trace w).2) !! 1 = Some n'
          ∧ (n' = n ∨ ∃ t, n' = Pg.set_sent t n).
Proof.
  intros w n trace. split; [reflexivity |].
  apply (rows_persist trace w 1 n). reflexivity.
Defined.

End Rows.

(** * The worlds the service gets to *)

Section ReachableMore.

Implicit Types (e : env) (w : world) (d : Pg.database) (n : Pg.notification).

(** In every world the service gets to, every row has a key between 1 and
    the last value of the sequence, which the INTEGER column holds; a
    channel that is one of the three; the status 'pending' or 'sent'; and
    a [created_at]. *)
Theorem reachable_rows w (i : Z) n :
  reachable w →
  Pg.notifications (db w) !! i = Some n →
  1 ≤ i ≤ Pg.notifications_id_seq (db w)
  ∧ in_int4 i
  ∧ Pg.channel n ∈ channels
  ∧ (Pg.status n = Some "pending" ∨ Pg.status n = Some "sent")
  ∧ is_Some (Pg.created_at n).
Proof.
  intros Hreach Hrow.
  destruct (reachable_ok w Hreach) as [[Hseq Hrows] _].
  destruct (Hrows i n Hrow) as (Hkey & Hchannel & Hstatus & Hcreated).
  split_and!; try done; try lia.
  unfold in_int4, Pg.int4_max in *. lia.
Qed.

Lemma reachable_rows_witness :
  let w := step (all_up 5) (POST_notifications (alert (JS.JNum 7) "slack")) init in
  let n := Pg.Notification 7 "alert" "slack" None "hi" (Some "pending") (Some 5) None in
  Pg.notifications (db w) !! 1 = Some n ∧ Pg.channel n ∈ channels.
Proof.
  intros w n. split; [reflexivity |].
  destruct (reachable_rows w 1 n) as (_ & _ & Hchannel & _);
    [apply reachable_step, reachable_init | reflexivity | exact Hchannel].
Defined.

(** In every world the service gets to, what the worker would take from
    the queue is the text of the key of a 'pending' row, and that text is
    nowhere else in the queue: left to itself, the service never hands the
    worker a stale [id] or the [id] of a row that is already sent. *)
Theorem reachable_queue_pending w (element : string) (q : Redis.queue) :
  reachable w →
  Redis.brPop (notification_queue w) = (Some element, q) →
  ∃ i n, element = JS.toString i
         ∧ JS.parseInt element = Some i
         ∧ in_int4 i
         ∧ Pg.notifications (db w) !! i = Some n
         ∧ Pg.status n = Some "pending"
         ∧ element ∉ q.
Proof.
  intros Hreach Hpop.
  destruct (reachable_ok w Hreach) as [[Hseq Hrows] (ids & Hqueue & Hnodup & Hpending)].
  apply brPop_Some in Hpop. rewrite Hqueue in Hpop.
  destruct (exists_last (l := ids)) as (ids' & i & ->).
  { intros ->. by destruct q. }
  rewrite fmap_app in Hpop. simpl in Hpop.
  apply app_inj_tail in Hpop as [<- <-].
  apply NoDup_app in Hnodup as (_ & Hnotin & _).
  apply Forall_app in Hpending as [_ Hpending].
  apply Forall_singleton in Hpending as (n & Hrow & Hstatus).
  destruct (Hrows i n Hrow) as (Hkey & _).
  assert (in_int4 i) as Hrange by (unfold in_int4, Pg.int4_max in *; lia).
  exists i, n. split_and!; try done.
  - by apply parseInt_toString, in_int4_safe.
  - intros Hin. apply list_elem_of_fmap in Hin as (j & Hj & Hin).
    symmetry in Hj. apply toString_inj in Hj as ->; [| done].
    apply (Hnotin i Hin). by apply list_elem_of_singleton.
Qed.

Lemma reachable_queue_pending_witness :
  let w := step (all_up 6) (POST_notifications (alert (JS.JNum 7) "slack"))
             (step (all_up 5) (POST_notifications (alert (JS.JNum 7) "email")) init) in
  Redis.brPop (notification_queue w) = (Some "1", ["2"])
  ∧ ∃ i n, JS.parseInt "1" = Some i
           ∧ Pg.notifications (db w) !! i = Some n
           ∧ Pg.status n = Some "pending".
Proof.
  intros w. split; [reflexivity |].
  destruct (reachable_queue_pending w "1" ["2"])
    as (i & n & _ & Hparse & _ & Hrow & Hstatus & _);
    [apply reachable_step, reachable_step, reachable_init | reflexivity |].
  exists i, n. split_and!; [exact Hparse | exact Hrow | exact Hstatus].
Defined.

End ReachableMore.

(** * More about the worker *)

Section WorkerMore.

Implicit Types (e : env) (w : world) (d : Pg.database) (n : Pg.notification).

(** A turn of the worker never adds or deletes a row and never moves the
    sequence, and the only row it can change is the one whose key the
    element it takes from the queue reads as. *)
Theorem worker_only_marks_popped e w :
  let w' := (processQueue_iteration e w).2 in
  Pg.notifications_id_seq (db w') = Pg.notifications_id_seq (db w)
  ∧ dom (Pg.notifications (db w')) = dom (Pg.notifications (db w))
  ∧ ∀ j, (∀ element q, Redis.brPop (notification_queue w) = (Some element, q) →
                       JS.parseInt element ≠ Some j) →
         Pg.notifications (db w') !! j = Pg.notifications (db w) !! j.
Proof.
  intros w'. subst w'.
  destruct (processQueue_iteration_cases e w)
    as [(-> & _) | (element & i & n & Hpop & Hparse & _ & _ & _ & [[_ ->] | [_ ->]])];
    try done.
  simpl. split_and!; [done | |].
  - apply set_eq. intros j. rewrite !elem_of_dom. apply lookup_alter_is_Some.
  - intros j Hj. rewrite lookup_alter_ne; [done |]. intros ->.
    by apply (Hj element _ Hpop).
Qed.

Lemma processQueue_iteration_idle e w :
  redis_up e = true → notification_queue w = [] →
  (processQueue_iteration e w).2 = w.
Proof.
  intros Hredis Hqueue. rewrite processQueue_iteration_paths, Hredis, Hqueue.
  simpl. destruct w. simpl in *. by subst.
Qed.

(** With the queue empty and Redis answering, the loop idles: however many
    turns it makes, each pop times out and the world stays as it is. *)
Theorem idle_worker (es : list env) w :
  Forall (fun e => redis_up e = true) es →
  notification_queue w = [] →
  processQueue es w = (Return (), w).
Proof.
  intros Hredis Hqueue. induction Hredis as [| e es He _ IH]; [done |].
  by rewrite processQueue_cons, processQueue_iteration_idle.
Qed.

Lemma idle_worker_witness :
  processQueue [all_up 1; all_up 2; all_up 3] init = (Return (), init).
Proof.
  apply (idle_worker [all_up 1; all_up 2; all_up 3] init); [| reflexivity].
  repeat constructor.
Defined.

(** An element of the queue that does not read as a number is taken out
    and dropped: the database and the sender are left alone.  For the
    empty string nothing is written; for any other such element the SELECT
    throws on NaN and the [catch] writes one line on the console. *)
Theorem unreadable_element_dropped e w (element : string) (q : Redis.queue) :
  redis_up e = true →
  pg_up e 0 = true →
  Redis.brPop (notification_queue w) = (Some element, q) →
  JS.parseInt element = None →
  let w' := (processQueue_iteration e w).2 in
  db w' = db w
  ∧ sender_calls w' = sender_calls w
  ∧ notification_queue w' = q
  ∧ (element = "" → console w' = console w)
  ∧ (element ≠ "" → ∃ err, console w' = error_processing err :: console w).
Proof.
  intros Hredis Hpg Hpop Hparse w'. subst w'.
  rewrite processQueue_iteration_paths, Hredis, Hpop. simpl.
  destruct (String.eqb_spec element "") as [-> | Hne]; [by split_and! |].
  rewrite Hpg, Hparse. simpl. split_and!; eauto. done.
Qed.

Lemma unreadable_element_dropped_witness :
  let w := World Pg.empty ["abc"] [] [] in
  Redis.brPop (notification_queue w) = (Some "abc", [])
  ∧ JS.parseInt "abc" = None
  ∧ notification_queue (processQueue_iteration (all_up 5) w).2 = []
  ∧ db (processQueue_iteration (all_up 5) w).2 = Pg.empty.
Proof.
  intros w.
  destruct (unreadable_element_dropped (all_up 5) w "abc" [])
    as (Hdb & _ & Hqueue & _);
    [reflexivity | reflexivity | reflexivity | reflexivity |].
  split_and!; [reflexivity | reflexivity | exact Hqueue | exact Hdb].
Defined.

(** When the UPDATE is not answered, the notification has been sent all the
    same: the sender was called, the [id] is gone from the queue, and the
    database is as it was (the row still 'pending' if it was); one line is
    written on the console. *)
Theorem sent_but_not_marked e w (element : string) (q : Redis.queue) (i : Z) n :
  redis_up e = true →
  pg_up e 0 = true →
  pg_up e 1 = false →
  Redis.brPop (notification_queue w) = (Some element, q) →
  JS.parseInt element = Some i →
  in_int4 i →
  Pg.notifications (db w) !! i = Some n →
  let w' := (processQueue_iteration e w).2 in
  sender_calls w' = Pg.worker_columns (i, n) :: sender_calls w
  ∧ db w' = db w
  ∧ notification_queue w' = q
  ∧ ∃ lines, console w'
             = (error_processing connection_error :: lines ++ console w)%list.
Proof.
  intros Hredis Hpg0 Hpg1 Hpop Hparse Hrange Hrow w'. subst w'.
  destruct (processQueue_iteration_found e w element q i n) as [lines ->];
    try done.
  rewrite Hpg1. simpl. split_and!; eauto.
Qed.

Lemma sent_but_not_marked_witness :
  let e := Env 20 (fun k => bool_decide (k = 0%nat)) true in
  let w := waiting "email" "pending" None in
  let w' := (processQueue_iteration e w).2 in
  Redis.brPop (notification_queue w) = (Some "1", [])
  ∧ JS.parseInt "1" = Some 1
  ∧ length (sender_calls w') = 1%nat
  ∧ db w' = db w
  ∧ notification_queue w' = [].
Proof.
  intros e w w'.
  destruct (sent_but_not_marked e w "1" [] 1
              (Pg.Notification 7 "alert" "email" None "hi" (Some "pending")
                 (Some 5) None))
    as (Hcalls & Hdb & Hqueue & _);
    [reflexivity | reflexivity | reflexivity | reflexivity | reflexivity
    | unfold in_int4, Pg.int4_max; lia | reflexivity |].
  fold w' in Hcalls, Hdb, Hqueue.
  split_and!; [reflexivity | reflexivity | by rewrite Hcalls | exact Hdb | exact Hqueue].
Defined.

(** A row whose key is not among those of the queue is left as it is by a
    turn of the worker. *)
Lemma unqueued_row_unchanged e w (ids : list Z) (i : Z) :
  db_ok (db w) → queue_of w ids → i ∉ ids →
  Pg.notifications (db (processQueue_iteration e w).2) !! i
  = Pg.notifications (db w) !! i.
Proof.
  intros [Hseq Hrows] (Hqueue & _ & Hpending) Hnotin.
  destruct (processQueue_iteration_cases e w)
    as [(-> & _) | (element & j & n & Hpop & Hparse & _ & _ & _ & [[_ ->] | [_ ->]])];
    try done.
  simpl. rewrite lookup_alter_ne; [done |]. intros ->.
  apply brPop_Some in Hpop. rewrite Hqueue in Hpop.
  destruct (exists_last (l := ids)) as (ids' & i0 & ->).
  { intros ->. by apply app_cons_not_nil in Hpop. }
  rewrite fmap_app in Hpop. simpl in Hpop.
  apply app_inj_tail in Hpop as [_ <-].
  apply Forall_app in Hpending as [_ Hi].
  apply Forall_singleton in Hi as (m & Hm & _).
  destruct (Hrows i0 m Hm) as (Hkey & _).
  rewrite parseInt_toString in Hparse
    by (unfold JS.safe_integer, Pg.int4_max in *; lia).
  injection Hparse as ->.
  apply Hnotin, elem_of_app. right. by apply list_elem_of_singleton.
Qed.

(** In a world the service gets to, a row whose [id] is not in the queue
    (its push failed, or it was taken out already) is never touched by the
    worker, however many turns it makes: if it is 'pending', it stays
    'pending' for ever. *)
Theorem unqueued_row_never_sent w (es : list env) (i : Z) n :
  reachable w →
  Pg.notifications (db w) !! i = Some n →
  JS.toString i ∉ notification_queue w →
  Pg.notifications (db (processQueue es w).2) !! i = Some n.
Proof.
  intros Hreach Hrow Hnotin.
  destruct (reachable_ok w Hreach) as [Hdb (ids & Hqueue)].
  assert (i ∉ ids) as Hids.
  { intros Hin. apply Hnotin. destruct Hqueue as (-> & _).
    by apply list_elem_of_fmap_2. }
  clear Hreach Hnotin. revert w ids Hrow Hdb Hqueue Hids.
  induction es as [| e es IH]; intros w ids Hrow Hdb Hqueue Hids; [done |].
  rewrite processQueue_cons.
  pose proof (unqueued_row_unchanged e w ids i Hdb Hqueue Hids) as Hsame.
  destruct (processQueue_iteration_ok e w ids Hdb Hqueue) as [Hdb' [Hqueue' | Hqueue']].
  - apply (IH _ ids); try done. by rewrite Hsame.
  - apply (IH _ (removelast ids)); try done; [by rewrite Hsame |].
    intros Hin. apply Hids.
    destruct (exists_last (l := ids)) as (ids' & i0 & ->).
    { by intros ->. }
    rewrite removelast_last in Hin. apply elem_of_app. by left.
Qed.

Lemma unqueued_row_never_sent_witness :
  let w := step (Env 5 (fun _ => true) false)
             (POST_notifications (alert (JS.JNum 7) "email")) init in
  let n := Pg.Notification 7 "alert" "email" None "hi" (Some "pending") (Some 5) None in
  Pg.notifications (db w) !! 1 = Some n
  ∧ notification_queue w = []
  ∧ Pg.notifications (db (processQueue [all_up 6; all_up 7] w).2) !! 1 = Some n.
Proof.
  intros w n. split_and!; [reflexivity | reflexivity |].
  apply (unqueued_row_never_sent w [all_up 6; all_up 7] 1 n).
  - apply reachable_step, reachable_init.
  - reflexivity.
  - apply not_elem_of_nil.
Defined.

End WorkerMore.

(** * Draining the queue *)

Section Drain.

Implicit Types (e : env) (w : world) (d : Pg.database) (n : Pg.notification).

Lemma brPop_app (q : Redis.queue) (x : string) :
  Redis.brPop (q ++ [x])%list = (Some x, q).
Proof.
  unfold Redis.brPop. rewrite reverse_app. simpl.
  by rewrite reverse_involutive.
Qed.

Lemma processQueue_sent_stays (es : list env) w (i : Z) n :
  Pg.notifications (db w) !! i = Some n →
  Pg.status n = Some "sent" →
  ∃ n', Pg.notifications (db (processQueue es w).2) !! i = Some n'
        ∧ Pg.status n' = Some "sent".
Proof.
  revert w n. induction es as [| e es IH]; intros w n Hrow Hstatus; [eauto |].
  rewrite processQueue_cons.
  destruct (db_step_row (now e) _ _ i n (processQueue_iteration_db_step e w) Hrow)
    as (n1 & Hrow1 & [-> | ->]); eauto.
Qed.

(** As many turns as the queue has elements, with every call answered,
    empty a queue of keys of 'pending' rows: every one of them is sent,
    and the sender is called for them one after the other, the oldest
    first. *)
Lemma processQueue_drains (ids : list Z) :
  ∀ w (es : list env),
    db_ok (db w) → queue_of w ids →
    length es = length ids → Forall up es →
    let w' := (processQueue es w).2 in
    notification_queue w' = []
    ∧ Forall (fun i => ∃ n', Pg.notifications (db w') !! i = Some n'
                             ∧ Pg.status n' = Some "sent") ids
    ∧ (sender_calls w').*1 = (ids ++ (sender_calls w).*1)%list.
Proof.
  induction ids as [| i ids IH] using rev_ind; intros w es Hdb Hqueue Hlen Hup.
  - destruct es; [| done]. destruct Hqueue as (Hq & _). by split_and!.
  - destruct es as [| e es]; [by rewrite length_app in Hlen; simpl in Hlen; lia |].
    rewrite length_app in Hlen. simpl in Hlen.
    apply Forall_cons in Hup as [(Hredis & Hpg0 & Hpg1) Hup].
    pose proof Hqueue as (Hq & Hnodup & Hpending).
    apply Forall_app in Hpending as [_ Hi].
    apply Forall_singleton in Hi as (n & Hrow & Hstatus).
    destruct Hdb as [Hseq Hrows].
    assert (in_int4 i) as Hrange.
    { destruct (Hrows i n Hrow) as (Hkey & _).
      unfold in_int4, Pg.int4_max in *. lia. }
    assert (Redis.brPop (notification_queue w)
            = (Some (JS.toString i), JS.toString <$> ids)) as Hpop.
    { rewrite Hq, fmap_app. apply brPop_app. }
    destruct (processQueue_iteration_ok e w (ids ++ [i]) (conj Hseq Hrows) Hqueue)
      as [Hdb1 Hqueue1].
    destruct (processQueue_iteration_found e w (JS.toString i) (JS.toString <$> ids)
                i n Hredis Hpg0 Hpop
                (parseInt_toString i (in_int4_safe i Hrange)) Hrange Hrow)
      as [lines Hturn].
    rewrite Hpg1 in Hturn. simpl in Hturn.
    intros w'. subst w'. rewrite processQueue_cons.
    rewrite Hturn in Hdb1, Hqueue1 |- *. simpl in Hdb1, Hqueue1.
    set (w1 := World _ _ _ _) in *.
    assert (queue_of w1 ids) as Hids.
    { destruct Hqueue1 as [(Hq1 & _) | Hq1]; [| by rewrite removelast_last in Hq1].
      apply (f_equal length) in Hq1. simpl in Hq1.
      rewrite !length_fmap, length_app in Hq1. simpl in Hq1. lia. }
    destruct (IH w1 es Hdb1 Hids) as (Hempty & Hsent & Hcalls); [lia | done |].
    split_and!; [done | |].
    + apply Forall_app. split; [done |]. apply Forall_singleton.
      apply (processQueue_sent_stays es w1 i (Pg.set_sent (now e) n)); [| done].
      subst w1. simpl. by rewrite lookup_alter_eq, Hrow.
    + simpl. rewrite Hcalls. subst w1. simpl. by rewrite <- app_assoc.
Qed.

(** From any world the service gets to, as many turns of the worker as the
    queue has elements, each with every call answered, leave the queue
    empty, every row whose [id] was waiting with status 'sent', and the
    sender called once for each of them, in the order they were pushed. *)
Theorem queue_drained w (es : list env) :
  reachable w →
  length es = length (notification_queue w) →
  Forall up es →
  let w' := (processQueue es w).2 in
  notification_queue w' = []
  ∧ (∀ i, JS.toString i ∈ notification_queue w →
       ∃ n', Pg.notifications (db w') !! i = Some n' ∧ Pg.status n' = Some "sent")
  ∧ JS.toString <$> (sender_calls w').*1
    = (notification_queue w ++ (JS.toString <$> (sender_calls w).*1))%list.
Proof.
  intros Hreach Hlen Hup.
  destruct (reachable_ok w Hreach) as [Hdb (ids & Hqueue)].
  pose proof Hqueue as (Hq & _ & Hpending).
  rewrite Hq, length_fmap in Hlen.
  destruct (processQueue_drains ids w es Hdb Hqueue Hlen Hup)
    as (Hempty & Hsent & Hcalls).
  intros w'. subst w'. split_and!; [done | |].
  - intros i Hi. rewrite Hq in Hi.
    apply list_elem_of_fmap in Hi as (j & Hj & Hin).
    apply toString_inj in Hj as ->.
    + rewrite Forall_forall in Hsent. by apply Hsent.
    + rewrite Forall_forall in Hpending.
      destruct (Hpending j Hin) as (n & Hrow & _).
      destruct Hdb as [Hseq Hrows]. destruct (Hrows j n Hrow) as (Hkey & _).
      unfold Pg.int4_max in *. lia.
  - by rewrite Hcalls, fmap_app, Hq.
Qed.

Lemma queue_drained_witness :
  let w := step (all_up 6) (POST_notifications (alert (JS.JNum 7) "slack"))
             (step (all_up 5) (POST_notifications (alert (JS.JNum 7) "email")) init) in
  let w' := (processQueue [all_up 8; all_up 9] w).2 in
  notification_queue w = ["2"; "1"]
  ∧ notification_queue w' = []
  ∧ JS.toString <$> (sender_calls w').*1 = ["2"; "1"].
Proof.
  intros w w'.
  destruct (queue_drained w [all_up 8; all_up 9]) as (Hempty & _ & Hcalls);
    [apply reachable_step, reachable_step, reachable_init | reflexivity
    | repeat constructor |].
  split_and!; [reflexivity | exact Hempty | exact Hcalls].
Defined.

End Drain.

(** * First in, first out *)

Section Fifo.

Implicit Types (e : env) (w : world) (b : Req.body).

Lemma issued_cons (ev : event) (o : option Res.response)
    (h : list (event * option Res.response)) :
  issued ((ev, o) :: h) = (issued [(ev, o)] ++ issued h)%list.
Proof. unfold issued. simpl. by rewrite app_nil_r. Qed.

Lemma run_cons_1 e (ev : event) (trace : list (env * event)) w :
  (run ((e, ev) :: trace) w).1
  = (ev, match (handle e ev w).1 with Return r => r | Throw _ => None end)
      :: (run trace (step e ev w)).1.
Proof.
  simpl. unfold step. destruct (handle e ev w) as [o w1]. simpl.
  by destruct (run trace w1).
Qed.

(** The admission handler pushes the [id] it answers, and nothing else. *)
Lemma post_notifications_pushes e b w (o : outcome Res.response) w1 :
  post_notifications e b w = (o, w1) →
  let answer := match o with Return r => Some r | Throw _ => None end in
  sender_calls w1 = sender_calls w
  ∧ ∃ ids, issued [(POST_notifications b, answer)] = ids
           ∧ (length ids ≤ 1)%nat
           ∧ notification_queue w1
             = ((JS.toString <$> ids) ++ notification_queue w)%list.
Proof.
  assert (∀ (r : Res.response) w0,
            (∃ err, Res.body r = Res.Error err) →
            sender_calls w0 = sender_calls w →
            notification_queue w0 = notification_queue w →
            (Return r, w0) = (o, w1) →
            let answer := match o with Return r => Some r | Throw _ => None end in
            sender_calls w1 = sender_calls w
            ∧ ∃ ids, issued [(POST_notifications b, answer)] = ids
                     ∧ (length ids ≤ 1)%nat
                     ∧ notification_queue w1
                       = ((JS.toString <$> ids) ++ notification_queue w)%list)
    as Hnothing.
  { intros r w0 [err Hbody] Hcalls Hq [= <- <-]. simpl. split; [done |].
    exists []. unfold issued. simpl. rewrite Hbody. by split_and!; [| lia |]. }
  rewrite post_notifications_paths.
  destruct (missing_required b); [apply Hnothing; by eauto |].
  destruct (negb _); [apply Hnothing; by eauto |].
  destruct (pg_up e 0); [| apply Hnothing; by eauto].
  destruct (insert_of b (now e) (db w)) as [[r | err] d] eqn:Hinsert;
    [| apply Hnothing; by eauto].
  destruct (redis_up e); [| apply Hnothing; by eauto].
  simpl. rewrite (to_json_inserted false _ _ _ _ _ Hinsert).
  intros [= <- <-]. simpl. split; [done |]. by eexists [_].
Qed.

(** One event, seen from the queue: what was waiting and what the event
    enqueued is what it dequeued and what is waiting after it. *)
Lemma handle_fifo e (ev : event) w :
  reachable w →
  (ev = Worker → redis_up e = true → pg_up e 0 = true) →
  let answer := match (handle e ev w).1 with Return r => r | Throw _ => None end in
  ∃ calls,
    sender_calls (step e ev w) = (calls ++ sender_calls w)%list
    ∧ (reverse (notification_queue w) ++ (JS.toString <$> issued [(ev, answer)]))%list
      = ((JS.toString <$> reverse calls.*1)
         ++ reverse (notification_queue (step e ev w)))%list.
Proof.
  intros Hreach Hup. unfold step, handle. destruct ev as [b | id | u l o | |].
  - unfold fmap, M_fmap.
    destruct (post_notifications e b w) as [o w1] eqn:Hpost.
    apply post_notifications_pushes in Hpost as (Hcalls & ids & Hids & Hlen & Hq).
    exists []. split; [by destruct o |].
    assert (issued [(POST_notifications b,
                     match (match o with
                            | Return a => (Return (Some a), w1)
                            | Throw e0 => (Throw e0, w1)
                            end).1 with
                     | Return r => r
                     | Throw _ => None
                     end)] = ids) as ->.
    { rewrite <- Hids. by destruct o. }
    assert ((match o with
             | Return a => (Return (Some a), w1)
             | Throw e0 => (Throw e0, w1)
             end).2 = w1) as -> by (by destruct o).
    rewrite Hq, reverse_app. simpl. f_equal.
    destruct ids as [| i [| j ids]]; [done | done | simpl in Hlen; lia].
  - destruct (get_notification_reads e id w) as (_ & Hq & Hcalls).
    unfold fmap, M_fmap.
    destruct (get_notification e id w) as [[r | err] w1]; simpl in *;
      exists []; by rewrite Hq, Hcalls, app_nil_r.
  - destruct (get_notifications_reads e u l o w) as (_ & Hq & Hcalls).
    unfold fmap, M_fmap.
    destruct (get_notifications e u l o w) as [[r | err] w1]; simpl in *;
      exists []; by rewrite Hq, Hcalls, app_nil_r.
  - exists []. simpl. by rewrite app_nil_r.
  - destruct (reachable_ok w Hreach) as [[Hseq Hrows] (ids & Hq & _ & Hpending)].
    unfold mbind, M_bind.
    pose proof (processQueue_iteration_returns e w) as Hret.
    destruct (processQueue_iteration e w) as [o w1] eqn:Hturn.
    simpl in Hret. subst o. cbn [fst snd mret M_ret].
    change (issued [(Worker, None)]) with (@nil Z).
    apply (f_equal snd) in Hturn. simpl in Hturn. subst w1.
    destruct (redis_up e) eqn:Hredis.
    2: { rewrite processQueue_iteration_paths, Hredis. simpl.
         exists []. simpl. by rewrite app_nil_r. }
    pose proof (Hup eq_refl eq_refl) as Hpg0.
    destruct (decide (ids = [])) as [-> | Hne].
    + rewrite processQueue_iteration_idle by done.
      exists []. simpl. by rewrite app_nil_r.
    + destruct (exists_last Hne) as (ids' & i & ->).
      apply Forall_app in Hpending as [_ Hi].
      apply Forall_singleton in Hi as (n & Hrow & _).
      destruct (Hrows i n Hrow) as (Hkey & _).
      assert (in_int4 i) as Hrange by (unfold in_int4, Pg.int4_max in *; lia).
      assert (Redis.brPop (notification_queue w)
              = (Some (JS.toString i), JS.toString <$> ids')) as Hpop.
      { rewrite Hq, fmap_app. apply brPop_app. }
      destruct (processQueue_iteration_found e w (JS.toString i)
                  (JS.toString <$> ids') i n Hredis Hpg0 Hpop
                  (parseInt_toString i (in_int4_safe i Hrange)) Hrange Hrow)
        as [lines ->].
      exists [Pg.worker_columns (i, n)].
      destruct (pg_up e 1); simpl; (split; [done |]);
        rewrite Hq, fmap_app, reverse_app; simpl; by rewrite app_nil_r.
Qed.

(** C7: over any run of the service from a world it gets to, in which
    the SELECT of every turn of the worker that has dequeued is answered,
    the queue is first in, first out between the admission handler, which
    enqueues, and the worker, which dequeues: the [id]s that were waiting
    at first, the oldest first, followed by the [id]s the admission handler
    has enqueued, in the order of its answers, are the [id]s the worker has
    dequeued and handed to the sender, in the order of the calls, followed
    by the [id]s still waiting, the oldest first.  And a dequeue gives the
    oldest element that is waiting and takes it out, or gives null, the
    timeout, when nothing is waiting. *)
Theorem queue_fifo (trace : list (env * event)) w :
  reachable w →
  Forall (fun x => x.2 = Worker → redis_up x.1 = true → pg_up x.1 0 = true)
    trace →
  let h := (run trace w).1 in
  let w' := (run trace w).2 in
  (∃ calls,
     sender_calls w' = (calls ++ sender_calls w)%list
     ∧ (reverse (notification_queue w) ++ (JS.toString <$> issued h))%list
       = ((JS.toString <$> reverse calls.*1)
          ++ reverse (notification_queue w'))%list)
  ∧ ∀ e, redis_up e = true →
      redisClient_brPop e w'
      = (Return (head (reverse (notification_queue w'))),
         World (db w') (reverse (tail (reverse (notification_queue w'))))
           (console w') (sender_calls w')).
Proof.
  intros Hreach Hup h w'. subst h w'. split.
  - revert w Hreach. induction Hup as [| [e ev] trace He _ IH]; intros w Hreach.
    + exists []. simpl. by rewrite app_nil_r.
    + destruct (handle_fifo e ev w Hreach He) as (c1 & Hc1 & Heq1).
      destruct (IH _ (reachable_step e ev w Hreach)) as (c2 & Hc2 & Heq2).
      rewrite run_cons, run_cons_1, issued_cons.
      exists (c2 ++ c1)%list. split; [by rewrite Hc2, Hc1, app_assoc |].
      rewrite fmap_app, app_assoc, Heq1, <- app_assoc, Heq2.
      by rewrite fmap_app, reverse_app, fmap_app, app_assoc.
  - intros e Hredis. unfold redisClient_brPop, Redis.brPop. rewrite Hredis.
    destruct (reverse (notification_queue (run trace w).2)) as [| x r] eqn:Hq;
      [| done].
    simpl. do 2 f_equal.
    by rewrite <- (reverse_involutive (notification_queue _)), Hq.
Qed.

(** Two admissions and a turn of the worker: the first [id] has gone to
    the sender, and the second is what the next dequeue gives. *)
Lemma queue_fifo_witness :
  let trace := [(all_up 5, POST_notifications (alert (JS.JNum 7) "email"));
                (all_up 6, POST_notifications (alert (JS.JNum 8) "slack"));
                (all_up 7, Worker)] in
  let w' := (run trace init).2 in
  issued (run trace init).1 = [1; 2]
  ∧ (sender_calls w').*1 = [1]
  ∧ notification_queue w' = ["2"]
  ∧ (redisClient_brPop (all_up 8) w').1 = Return (Some "2").
Proof.
  intros trace w'.
  destruct (queue_fifo trace init) as [_ Hnext].
  - apply reachable_init.
  - repeat constructor; simpl; first [discriminate | reflexivity].
  - split_and!; [reflexivity | reflexivity | reflexivity |].
    fold w' in Hnext. by rewrite (Hnext (all_up 8) eq_refl).
Defined.

End Fifo.

(** * Reading one notification *)

Section Get.

Implicit Types (e : env) (w : world) (d : Pg.database) (n : Pg.notification).

(** A GET for an [id] that reads as an integer of the column but is the key
    of no row is answered 404, and the world is as it was: nothing is
    written on the console. *)
Theorem get_notification_not_found e (id : string) (i : Z) w :
  pg_up e 0 = true →
  Pg.int_in Pg.int4_max id = Some i →
  Pg.notifications (db w) !! i = None →
  get_notification e id w
  = (Return (Res.Response 404 (Res.Error "notification not found")), w).
Proof.
  intros Hpg Hid Hrow. unfold get_notification. unfold_M. rewrite Hpg.
  unfold Pg.select_by_id, Pg.bind_int. rewrite Hid. simpl. rewrite Hrow. simpl.
  by destruct w.
Qed.

Lemma get_notification_not_found_witness :
  Pg.int_in Pg.int4_max " 42 " = Some 42
  ∧ get_notification (all_up 5) " 42 " init
    = (Return (Res.Response 404 (Res.Error "notification not found")), init).
Proof.
  split; [reflexivity |].
  apply (get_notification_not_found (all_up 5) " 42 " 42 init); reflexivity.
Defined.

(** A GET for an [id] that does not read as an integer of the column (not
    a number, or one out of range) is answered 500, not 404: the SELECT
    throws on it.  One line is written on the console; the database, the
    queue and the sender are left alone. *)
Theorem get_notification_bad_id e (id : string) w :
  pg_up e 0 = true →
  Pg.int_in Pg.int4_max id = None →
  ∃ err,
    get_notification e id w
    = (Return (Res.Response 500 (Res.Error err)),
       World (db w) (notification_queue w)
         (("error getting notification: " +:+ err) :: console w) (sender_calls w)).
Proof.
  intros Hpg Hid. unfold get_notification. unfold_M. rewrite Hpg.
  unfold Pg.select_by_id, Pg.bind_int. rewrite Hid. simpl. eauto.
Qed.

Lemma get_notification_bad_id_witness :
  Pg.int_in Pg.int4_max "abc" = None
  ∧ Pg.int_in Pg.int4_max "2147483648" = None
  ∧ ∃ err, (get_notification (all_up 5) "2147483648" init).1
           = Return (Res.Response 500 (Res.Error err)).
Proof.
  split_and!; [reflexivity | reflexivity |].
  destruct (get_notification_bad_id (all_up 5) "2147483648" init) as [err Hget];
    [reflexivity | reflexivity |].
  exists err. by rewrite Hget.
Defined.

(** In a world the service gets to, a GET for the [id] of a row answers
    200 with the row as it is stored, column by column; [sent_at] is null
    exactly when the status is 'pending'.  The world is as it was. *)
Theorem get_notification_found e (id : string) (i : Z) w n :
  reachable w →
  pg_up e 0 = true →
  Pg.int_in Pg.int4_max id = Some i →
  Pg.notifications (db w) !! i = Some n →
  ∃ c, Pg.created_at n = Some c
       ∧ get_notification e id w
         = (Return (Res.Response 200 (Res.One
              (Res.Notification i (Pg.user_id n) (Pg.type n) (Pg.channel n)
                 (Pg.subject n) (Pg.message n) (Pg.status n) c
                 (Some (Pg.sent_at n))))), w)
       ∧ (Pg.sent_at n = None ↔ Pg.status n = Some "pending").
Proof.
  intros Hreach Hpg Hid Hrow.
  destruct (reachable_ok w Hreach) as [[_ Hrows] _].
  destruct (Hrows i n Hrow) as (_ & _ & Hstatus & [c Hcreated]).
  assert (map_Forall (fun _ => sent_at_iff_sent) (Pg.notifications (db w))) as Hsent.
  { clear -Hreach. induction Hreach as [| e ev w _ IH]; [apply map_Forall_empty |].
    by eapply db_step_sent_at; [apply step_db_step |]. }
  apply Hsent in Hrow as Hiff. unfold sent_at_iff_sent in Hiff.
  exists c. split_and!; [done | |].
  - unfold get_notification. unfold_M. rewrite Hpg.
    unfold Pg.select_by_id, Pg.bind_int. rewrite Hid. simpl. rewrite Hrow. simpl.
    unfold to_json. simpl. rewrite Hcreated. simpl. by destruct w.
  - destruct Hstatus as [Hpending | Hsent'].
    + split; [done |]. intros _.
      destruct (Pg.sent_at n) eqn:Hs; [| done].
      assert (Some z ≠ None) as Hne by done. apply Hiff in Hne. congruence.
    + split; [| congruence]. intros Hnone. apply Hiff in Hsent'. congruence.
Qed.

Lemma get_notification_found_witness :
  let w := step (all_up 9) Worker
             (step (all_up 5) (POST_notifications (alert (JS.JNum 7) "email")) init) in
  Pg.int_in Pg.int4_max "1" = Some 1
  ∧ (get_notification (all_up 12) "1" w).1
    = Return (Res.Response 200 (Res.One
        (Res.Notification 1 7 "alert" "email" None "hi" (Some "sent") 5
           (Some (Some 9))))).
Proof.
  intros w. split; [reflexivity |].
  destruct (get_notification_found (all_up 12) "1" 1 w
              (Pg.Notification 7 "alert" "email" None "hi" (Some "sent") (Some 5)
                 (Some 9)))
    as (c & Hcreated & Hget & _);
    [apply reachable_step, reachable_step, reachable_init
    | reflexivity | reflexivity | reflexivity |].
  rewrite Hget. simpl in Hcreated. by injection Hcreated as <-.
Defined.

(** The three reading handlers write nothing but the console: whatever
    calls fail, the database, the queue and the record of the sender are
    as they were. *)
Theorem reads_do_not_write e (ev : event) w :
  (∀ b, ev ≠ POST_notifications b) →
  ev ≠ Worker →
  let w' := step e ev w in
  db w' = db w
  ∧ notification_queue w' = notification_queue w
  ∧ sender_calls w' = sender_calls w.
Proof.
  intros Hpost Hworker. unfold step, handle.
  destruct ev as [b | id | u l o | |]; [by destruct (Hpost b) | | | done | done].
  - pose proof (get_notification_reads e id w) as Hreads.
    unfold fmap, M_fmap. by destruct (get_notification e id w) as [[r | err] w'].
  - pose proof (get_notifications_reads e u l o w) as Hreads.
    unfold fmap, M_fmap. by destruct (get_notifications e u l o w) as [[r | err] w'].
Qed.

Lemma reads_do_not_write_witness :
  let w := step (all_up 5) (POST_notifications (alert (JS.JNum 7) "email")) init in
  db (step (Env 6 (fun _ => false) false) (GET_notifications (Some "u1") None None) w)
  = db w.
Proof.
  intros w.
  apply (reads_do_not_write (Env 6 (fun _ => false) false)
           (GET_notifications (Some "u1") None None) w); discriminate.
Defined.

End Get.

(** * Listing notifications *)

Section Listing.

Implicit Types (e : env) (w : world) (d : Pg.database) (u l o : option string).


#[local] Instance newest_first_total : Total Pg.newest_first.
Proof.
  intros [i1 n1] [i2 n2]. unfold Pg.newest_first, Pg.ts_le. simpl.
  destruct (Pg.created_at n1) as [c1 |], (Pg.created_at n2) as [c2 |]; simpl; auto.
  destruct (Z.leb_spec c2 c1), (Z.leb_spec c1 c2); simpl; auto. lia.
Qed.

#[local] Instance newest_first_transitive : Transitive Pg.newest_first.
Proof.
  intros [i1 n1] [i2 n2] [i3 n3]. unfold Pg.newest_first, Pg.ts_le. simpl.
  destruct (Pg.created_at n1) as [c1 |], (Pg.created_at n2) as [c2 |],
    (Pg.created_at n3) as [c3 |]; simpl; auto; try done.
  rewrite !Is_true_true, !Z.leb_le. lia.
Qed.

Lemma StronglySorted_sublist {A} (R : relation A) (l1 l2 : list A) :
  l1 `sublist_of` l2 → StronglySorted R l2 → StronglySorted R l1.
Proof.
  induction 1 as [| x l1 l2 Hsub IH | x l1 l2 Hsub IH]; intros Hsorted; [done | |].
  - apply StronglySorted_inv in Hsorted as [Hsorted Hx].
    constructor; [by apply IH |].
    rewrite Forall_forall in Hx |- *. intros y Hy. apply Hx.
    by eapply elem_of_sublist.
  - apply StronglySorted_inv in Hsorted as [Hsorted _]. by apply IH.
Qed.

(** The page the SELECT gives: a part of the matching rows, sorted. *)
Lemma select_page_return (filter : option Pg.param) (limit offset : Pg.param) d
    (rows : list Pg.row) :
  Pg.select_page filter limit offset d = Return rows →
  ∃ (x : option (option Z)) (lim off : option nat),
    from_option (fun p => Some <$> Pg.bind_int Pg.int4_max p) (Return None) filter
    = Return x
    ∧ Pg.bind_int Pg.int8_max limit ≫= Pg.row_count "LIMIT" = Return lim
    ∧ Pg.bind_int Pg.int8_max offset ≫= Pg.row_count "OFFSET" = Return off
    ∧ rows = from_option (fun k => take k) id lim
               (drop (default 0%nat off)
                  (merge_sort Pg.newest_first (matching x d))).
Proof.
  unfold Pg.select_page.
  destruct (from_option _ _ filter) as [x |]; [| done].
  destruct (Pg.bind_int Pg.int8_max limit ≫= Pg.row_count "LIMIT") as [lim |];
    [| by simpl].
  destruct (Pg.bind_int Pg.int8_max offset ≫= Pg.row_count "OFFSET") as [off |];
    [| by simpl].
  simpl. intros [= <-]. exists x, lim, off. split_and!; try done.
  by destruct lim, x.
Qed.

Lemma select_page_sublist (filter : option Pg.param) (limit offset : Pg.param) d
    (rows : list Pg.row) :
  Pg.select_page filter limit offset d = Return rows →
  ∃ x, from_option (fun p => Some <$> Pg.bind_int Pg.int4_max p) (Return None) filter
       = Return x
     ∧ rows `sublist_of` merge_sort Pg.newest_first (matching x d).
Proof.
  intros Hpage.
  apply select_page_return in Hpage as (x & lim & off & Hx & _ & _ & ->).
  exists x. split; [done |].
  destruct lim as [k |]; simpl.
  - etrans; [apply sublist_take | apply sublist_drop].
  - apply sublist_drop.
Qed.

Lemma matching_rows (x : option (option Z)) d (r : Pg.row) :
  r ∈ matching x d →
  Pg.notifications d !! r.1 = Some r.2
  ∧ ∀ i, x = Some i → Some (Pg.user_id r.2) = i.
Proof.
  destruct r as [i n]. unfold matching. destruct x as [x |].
  - intros Hin. apply list_elem_of_In, filter_In in Hin as [Hrow Hx].
    apply list_elem_of_In, elem_of_map_to_list in Hrow.
    apply bool_decide_eq_true in Hx.
    split; [done |]. by intros ? [= <-].
  - intros Hin. apply elem_of_map_to_list in Hin. by split.
Qed.

Lemma matching_NoDup (x : option (option Z)) d : NoDup (matching x d).*1.
Proof.
  unfold matching. destruct x as [x |]; [| apply NoDup_fst_map_to_list].
  apply (sublist_NoDup _ (map_to_list (Pg.notifications d)).*1);
    [apply NoDup_fst_map_to_list |].
  apply fmap_sublist. induction (map_to_list _) as [| r rs IH]; simpl; [done |].
  destruct (bool_decide _); by constructor.
Qed.

Lemma mapM_to_json (rows : list Pg.row) (ns : list Res.notification) :
  mapM (to_json true) rows = Return ns →
  Forall2 (fun r n => to_json true r = Return n) rows ns.
Proof.
  revert ns. induction rows as [| r rows IH]; intros ns; simpl.
  - intros [= <-]. constructor.
  - unfold mbind, outcome_bind. destruct (to_json true r) as [n |] eqn:Hn; [| done].
    destruct (mapM (to_json true) rows) as [ns' |]; [| done].
    intros [= <-]. constructor; [done |]. by apply IH.
Qed.

Lemma to_json_return (r : Pg.row) (n : Res.notification) :
  to_json true r = Return n →
  ∃ c, Pg.created_at r.2 = Some c
       ∧ n = Res.Notification r.1 (Pg.user_id r.2) (Pg.type r.2) (Pg.channel r.2)
               (Pg.subject r.2) (Pg.message r.2) (Pg.status r.2) c
               (Some (Pg.sent_at r.2)).
Proof.
  unfold to_json. destruct (Pg.created_at r.2) as [c |]; [| done]. simpl.
  intros [= <-]. eauto.
Qed.

(** The list handler, path by path. *)
Lemma get_notifications_paths e u l o w :
  get_notifications e u l o w =
  let failed err :=
    (Return (Res.Response 500 (Res.Error err)),
     World (db w) (notification_queue w) (error_listing err :: console w)
       (sender_calls w)) in
  if pg_up e 0 then
    match Pg.select_page (user_filter u) (Pg.prepareNumber (Some (page_limit l)))
            (Pg.prepareNumber (Some (page_offset o))) (db w) with
    | Return rows =>
        match mapM (to_json true) rows with
        | Return ns => (Return (Res.Response 200 (Res.Many ns (length ns))), w)
        | Throw err => failed err
        end
    | Throw err => failed err
    end
  else failed connection_error.
Proof.
  unfold get_notifications, user_filter. unfold_M.
  destruct (pg_up e 0); [| done]. cbn -[Pg.select_page mapM].
  destruct (Pg.select_page _ _ _ _) as [rows |]; [| done].
  cbn -[mapM]. destruct (mapM (to_json true) rows); [| done]. by destruct w.
Qed.

(** What a 200 answer of the list handler is made of. *)
Lemma get_notifications_return e u l o w (ns : list Res.notification) (c : nat) w' :
  get_notifications e u l o w = (Return (Res.Response 200 (Res.Many ns c)), w') →
  ∃ rows,
    Pg.select_page (user_filter u) (Pg.prepareNumber (Some (page_limit l)))
      (Pg.prepareNumber (Some (page_offset o))) (db w) = Return rows
    ∧ Forall2 (fun r n => to_json true r = Return n) rows ns
    ∧ w' = w.
Proof.
  rewrite get_notifications_paths. cbv zeta.
  destruct (pg_up e 0); [| done].
  destruct (Pg.select_page _ _ _ _) as [rows |]; [| done].
  destruct (mapM (to_json true) rows) as [ns' |] eqn:Hns; [| done].
  intros [= <- _ <-]. exists rows. split_and!; [done | by apply mapM_to_json | done].
Qed.

(** The records of a list answer come newest first: each was created no
    earlier than all that follow it. *)
Theorem list_newest_first e u l o w (ns : list Res.notification) (c : nat) w' :
  get_notifications e u l o w = (Return (Res.Response 200 (Res.Many ns c)), w') →
  StronglySorted not_older ns.
Proof.
  intros Hlist.
  apply get_notifications_return in Hlist as (rows & Hrows & Hjson & _).
  apply select_page_sublist in Hrows as (x & _ & Hsub).
  pose proof (StronglySorted_sublist _ _ _ Hsub
                (StronglySorted_merge_sort Pg.newest_first _)) as Hsorted.
  clear Hsub. revert ns Hjson.
  induction Hsorted as [| r rows _ IH Hr]; intros ns Hjson.
  - apply Forall2_nil_inv_l in Hjson as ->. constructor.
  - apply Forall2_cons_inv_l in Hjson as (n & ns' & Hn & Hjson & ->).
    constructor; [by apply IH |].
    apply to_json_return in Hn as (c0 & Hn & ->).
    clear IH. induction Hjson as [| r' n' rows' ns' Hn' _ IH']; [constructor |].
    apply Forall_cons in Hr as [Hr Hrs]. constructor; [| by apply IH'].
    apply to_json_return in Hn' as (c' & Hn' & ->).
    unfold Pg.newest_first, Pg.ts_le in Hr. rewrite Hn, Hn' in Hr.
    unfold not_older. simpl. by apply Is_true_true, Z.leb_le in Hr.
Qed.

Lemma list_newest_first_witness :
  ∃ ns, (get_notifications (all_up 9) None None None (crowded 3)).1
        = Return (Res.Response 200 (Res.Many ns 3))
      ∧ Res.id <$> ns = [3; 2; 1]
      ∧ StronglySorted not_older ns.
Proof.
  eexists. split_and!; [vm_compute; reflexivity | reflexivity |].
  eapply (list_newest_first (all_up 9) None None None (crowded 3) _ 3%nat).
  vm_compute. reflexivity.
Defined.

Lemma page_rows (x : option (option Z)) d (rows : list Pg.row) :
  rows `sublist_of` merge_sort Pg.newest_first (matching x d) →
  NoDup rows.*1 ∧ ∀ r, r ∈ rows → r ∈ matching x d.
Proof.
  intros Hsub. split.
  - apply (sublist_NoDup _ (merge_sort Pg.newest_first (matching x d)).*1).
    + rewrite merge_sort_Permutation. apply matching_NoDup.
    + by apply fmap_sublist.
  - intros r Hr. rewrite <- (merge_sort_Permutation Pg.newest_first).
    by eapply elem_of_sublist.
Qed.

Lemma to_json_ids (rows : list Pg.row) (ns : list Res.notification) :
  Forall2 (fun r n => to_json true r = Return n) rows ns →
  Res.id <$> ns = rows.*1.
Proof.
  induction 1 as [| r n rows ns Hn _ IH]; [done |].
  apply to_json_return in Hn as (c & _ & ->). by rewrite !fmap_cons, IH.
Qed.

(** Every record of a list answer is a row of the table, answered column
    by column as it is stored, and no row is answered twice. *)
Theorem list_answers_rows e u l o w (ns : list Res.notification) (c : nat) w' :
  get_notifications e u l o w = (Return (Res.Response 200 (Res.Many ns c)), w') →
  NoDup (Res.id <$> ns)
  ∧ ∀ n, n ∈ ns →
      ∃ row, Pg.notifications (db w) !! Res.id n = Some row
             ∧ n = Res.Notification (Res.id n) (Pg.user_id row) (Pg.type row)
                     (Pg.channel row) (Pg.subject row) (Pg.message row)
                     (Pg.status row) (Res.created_at n) (Some (Pg.sent_at row))
             ∧ Pg.created_at row = Some (Res.created_at n).
Proof.
  intros Hlist.
  apply get_notifications_return in Hlist as (rows & Hrows & Hjson & _).
  apply select_page_sublist in Hrows as (x & _ & Hsub).
  apply page_rows in Hsub as [Hnodup Hin].
  split; [by rewrite (to_json_ids rows ns Hjson) |].
  intros n Hn.
  apply list_elem_of_lookup in Hn as [k Hk].
  destruct (Forall2_lookup_r _ _ _ _ _ Hjson Hk) as (r & Hr & Hrn).
  apply list_elem_of_lookup_2, Hin, matching_rows in Hr as [Hrow _].
  apply to_json_return in Hrn as (c' & Hcreated & ->).
  exists r.2. by split_and!.
Qed.

Lemma list_answers_rows_witness :
  ∃ ns, (get_notifications (all_up 9) None (Some "2") (Some "1") (crowded 4)).1
        = Return (Res.Response 200 (Res.Many ns 2))
      ∧ Res.id <$> ns = [3; 2]
      ∧ NoDup (Res.id <$> ns).
Proof.
  eexists. split_and!; [vm_compute; reflexivity | reflexivity |].
  eapply (list_answers_rows (all_up 9) None (Some "2") (Some "1") (crowded 4) _ 2%nat).
  vm_compute. reflexivity.
Defined.

(** With a [user_id] in the query that is not empty, a list answer holds
    only rows of that user: the parameter reads as an integer of the
    column, and every record has it as its [user_id]. *)
Theorem list_filtered e (s : string) l o w (ns : list Res.notification)
    (c : nat) w' :
  s ≠ "" →
  get_notifications e (Some s) l o w
  = (Return (Res.Response 200 (Res.Many ns c)), w') →
  ∃ i, Pg.int_in Pg.int4_max s = Some i
       ∧ Forall (fun n => Res.user_id n = i) ns.
Proof.
  intros Hs Hlist.
  apply get_notifications_return in Hlist as (rows & Hrows & Hjson & _).
  unfold user_filter in Hrows. rewrite (proj2 (String.eqb_neq _ _) Hs) in Hrows.
  apply select_page_sublist in Hrows as (x & Hx & Hsub).
  simpl in Hx. destruct (Pg.int_in Pg.int4_max s) as [i |]; [| done].
  simpl in Hx. injection Hx as <-. exists i. split; [done |].
  apply page_rows in Hsub as [_ Hin].
  rewrite Forall_forall. intros n Hn.
  apply list_elem_of_lookup in Hn as [k Hk].
  destruct (Forall2_lookup_r _ _ _ _ _ Hjson Hk) as (r & Hr & Hrn).
  apply list_elem_of_lookup_2, Hin, matching_rows in Hr as [_ Huser].
  specialize (Huser _ eq_refl). injection Huser as <-.
  by apply to_json_return in Hrn as (c' & _ & ->).
Qed.

Lemma list_filtered_witness :
  let w := step (all_up 6) (POST_notifications (alert (JS.JNum 8) "slack"))
             (step (all_up 5) (POST_notifications (alert (JS.JNum 7) "email")) init) in
  let ns := [Res.Notification 2 8 "alert" "slack" None "hi" (Some "pending") 6
               (Some None)] in
  get_notifications (all_up 9) (Some "8") None None w
  = (Return (Res.Response 200 (Res.Many ns 1)), w)
  ∧ Forall (fun n => Res.user_id n = 8) ns.
Proof.
  intros w ns.
  assert (get_notifications (all_up 9) (Some "8") None None w
          = (Return (Res.Response 200 (Res.Many ns 1)), w)) as Hlist
    by (vm_compute; reflexivity).
  split; [exact Hlist |].
  destruct (list_filtered (all_up 9) "8" None None w ns 1%nat w)
    as (i & Hi & Huser); [discriminate | exact Hlist |].
  vm_compute in Hi. injection Hi as <-. exact Huser.
Defined.











(** A list request with a negative limit, a negative offset, or a
    [user_id] that does not read as an integer of the column is answered
    500: the SELECT throws.  One line is written on the console and
    nothing else changes. *)
Theorem list_bad_parameters e u l o w :
  pg_up e 0 = true →
  page_limit l < 0 ∨ page_offset o < 0
  ∨ (∃ s, u = Some s ∧ s ≠ "" ∧ Pg.int_in Pg.int4_max s = None) →
  ∃ err,
    get_notifications e u l o w
    = (Return (Res.Response 500 (Res.Error err)),
       World (db w) (notification_queue w) (error_listing err :: console w)
         (sender_calls w)).
Proof.
  intros Hpg Hbad. rewrite get_notifications_paths, Hpg. cbv zeta.
  destruct (Pg.select_page _ _ _ _) as [rows |] eqn:Hpage; [| eauto].
  exfalso.
  apply select_page_return in Hpage as (x & lim & off & Hx & Hlim & Hoff & _).
  destruct Hbad as [Hneg | [Hneg | (s & -> & Hs & Hint)]].
  - destruct (bind_int_negative Pg.int8_max _ "LIMIT" Hneg) as [err' Herr].
    by rewrite Herr in Hlim.
  - destruct (bind_int_negative Pg.int8_max _ "OFFSET" Hneg) as [err' Herr].
    by rewrite Herr in Hoff.
  - unfold user_filter in Hx. rewrite (proj2 (String.eqb_neq _ _) Hs) in Hx.
    simpl in Hx. by rewrite Hint in Hx.
Qed.

Lemma list_bad_parameters_witness :
  page_limit (Some "-5") < 0
  ∧ ∃ err, (get_notifications (all_up 9) None (Some "-5") None init).1
           = Return (Res.Response 500 (Res.Error err)).
Proof.
  split; [reflexivity |].
  destruct (list_bad_parameters (all_up 9) None (Some "-5") None init) as [err Hlist];
    [reflexivity | left; reflexivity |].
  exists err. by rewrite Hlist.
Defined.

End Listing.

(** * From admission to delivery *)

Section EndToEnd.

Implicit Types (e : env) (w : world) (b : Req.body).

(** A valid body admitted on an empty queue and one turn of the worker,
    with every call answered: the row is marked as sent at the instant of
    the turn, the queue is empty again, the sender was called once with
    the columns of the row, and a GET of the [id] answers the row with
    status 'sent' and that [sent_at]. *)
Theorem admitted_then_sent w e1 e2 e3 b (row : Pg.notification) :
  reachable w →
  notification_queue w = [] →
  valid b (now e1) row →
  pg_up e1 0 = true → redis_up e1 = true →
  Pg.notifications_id_seq (db w) < Pg.int4_max →
  up e2 →
  pg_up e3 0 = true →
  let id := Pg.notifications_id_seq (db w) + 1 in
  let w2 := step e2 Worker (step e1 (POST_notifications b) w) in
  Pg.notifications (db w2) !! id = Some (Pg.set_sent (now e2) row)
  ∧ notification_queue w2 = []
  ∧ sender_calls w2 = Pg.worker_columns (id, row) :: sender_calls w
  ∧ (get_notification e3 (JS.toString id) w2).1
    = Return (Res.Response 200 (Res.One
        (Res.Notification id (Pg.user_id row) (Pg.type row) (Pg.channel row)
           (Pg.subject row) (Pg.message row) (Some "sent") (now e1)
           (Some (Some (now e2)))))).
Proof.
  intros Hreach Hempty Hvalid Hpg1 Hredis1 Hmax (Hredis2 & Hpg20 & Hpg21) Hpg3 id w2.
  destruct (reachable_ok w Hreach) as [[Hseq Hrows] _].
  assert (keys_issued (db w)) as Hkeys.
  { intros i n Hi. destruct (Hrows i n Hi) as (? & _). simpl. lia. }
  pose proof (insert_of_valid b (now e1) row (db w) Hvalid Hmax Hkeys) as Hinsert.
  apply valid_row_ok in Hvalid as Hrow. destruct Hrow as (_ & _ & Hcreated).
  destruct Hvalid as (Hmissing & Hchannel & _).
  fold id in Hinsert.
  set (w1 := World (Pg.Database (<[id := row]> (Pg.notifications (db w))) id)
               [JS.toString id] (console w) (sender_calls w)).
  assert (step e1 (POST_notifications b) w = w1) as Hw1.
  { unfold step, handle, fmap, M_fmap.
    rewrite post_notifications_paths, Hmissing, Hchannel, Hpg1, Hinsert, Hredis1.
    simpl. unfold to_json. simpl. rewrite Hcreated. simpl. by rewrite Hempty. }
  assert (in_int4 id) as Hrange.
  { unfold in_int4, id, Pg.int4_max in *. lia. }
  destruct (processQueue_iteration_found e2 w1 (JS.toString id) [] id row)
    as [lines Hturn]; try done.
  { by apply parseInt_toString, in_int4_safe. }
  { apply lookup_insert_eq. }
  rewrite Hpg21 in Hturn. simpl in Hturn.
  assert (step e2 Worker w1
          = World (Pg.Database (alter (Pg.set_sent (now e2)) id
                                  (<[id := row]> (Pg.notifications (db w)))) id)
              [] (lines ++ console w)%list
              (Pg.worker_columns (id, row) :: sender_calls w)) as Hw2.
  { unfold step, handle, mbind, M_bind. by rewrite Hturn. }
  subst w2. rewrite Hw1, Hw2. simpl.
  assert (alter (Pg.set_sent (now e2)) id (<[id := row]> (Pg.notifications (db w))) !! id
          = Some (Pg.set_sent (now e2) row)) as Hsent.
  { by rewrite lookup_alter_eq, lookup_insert_eq. }
  split_and!; [done | done | done |].
  unfold get_notification. unfold_M. rewrite Hpg3. simpl.
  change (Some (JS.toString id)) with (Pg.prepareNumber (Some id)).
  rewrite select_by_id_number by done. simpl. rewrite Hsent. simpl.
  unfold to_json. simpl. by rewrite Hcreated.
Qed.

Lemma admitted_then_sent_witness :
  let b := alert (JS.JNum 7) "telegram" in
  let row := Pg.Notification 7 "alert" "telegram" None "hi" (Some "pending") (Some 5) None in
  let w2 := step (all_up 9) Worker (step (all_up 5) (POST_notifications b) init) in
  valid b 5 row
  ∧ Pg.notifications (db w2) !! 1 = Some (Pg.set_sent 9 row)
  ∧ notification_queue w2 = [].
Proof.
  intros b row w2.
  assert (valid b 5 row) as Hvalid by (split_and!; reflexivity).
  destruct (admitted_then_sent init (all_up 5) (all_up 9) (all_up 10) b row)
    as (Hrow & Hqueue & _);
    [apply reachable_init | reflexivity | exact Hvalid | reflexivity | reflexivity
    | vm_compute; reflexivity | by split_and! | reflexivity |].
  split_and!; [exact Hvalid | exact Hrow | exact Hqueue].
Defined.

End EndToEnd.
